(** * The RLM orchestration loop of [atris/research/rlm_simulation.py]

    A shallow embedding of [REPLState] and of the methods of [RLMSimulator]
    ([llm_query], [execute_repl_code], [extract_code_blocks],
    [check_final_answer], [run]), and the properties of the loop.

    Conventions of the embedding.
    - A Python [str] is a [string]; a character is a code point below 256.
      The classes [\w] and "whitespace" are given for that whole range.
    - Python integers are unbounded: counters are in [Z].  [str] of an
      integer is its decimal text up to 4300 digits and raises beyond, as
      in CPython 3.11 with its default settings.
    - A [dict] keeps insertion order: it is an association list whose keys
      are kept distinct by [Dict.set].  The keys of the globals of a block
      are names.
    - An object that code can change in place (a list, an instance) is a
      [VShared] value: it carries an identity and what [str] gives for it
      now.  The globals of a block and [variables] hold the same objects,
      so a change in place shows in both.
    - A call that may raise returns a [fallible] value; a call that may
      not return at all (an exception leaves it, or it runs for ever)
      says how it stopped and in which state.  [run] is described in the same way: by
      its passes, the state it ended in, and how it stopped if it did not
      return.
    - The agent ([simulated_llm]) and the meaning of Python source text
      ([python]) are parameters.  A code block is given a meaning as a tree
      of the actions a block can perform on what the sandbox hands to it:
      its globals, the objects they hold, [print] and [llm_query].  A
      block ends by running off its end, with an [Exception], with an
      exception that is no [Exception] (an exit request, an interrupt), or
      never.  A block acts on the simulator through what it is handed
      only.
    - Trace lines written by [log] and [print] to the terminal have no
      effect on the state and are left out. *)

From Stdlib Require Import String Ascii List ZArith Lia Bool DecimalString Sorted.
Import ListNotations.
Local Open Scope list_scope.
Local Open Scope string_scope.

(** ** Text *)

Definition LF : ascii := "010"%char.

Module Text.

(** [str(n)] for an integer. *)
Definition of_Z (n : Z) : string := NilZero.string_of_int (Z.to_int n).

(** [str(n)] for a length. *)
Definition of_nat (n : nat) : string := NilZero.string_of_uint (Nat.to_uint n).

Definition between (lo hi : nat) (c : ascii) : bool :=
  let n := nat_of_ascii c in (lo <=? n)%nat && (n <=? hi)%nat.

(** [c.isspace()]: tab to carriage return, the four separators 28-31,
    space, NEL and the no-break space. *)
Definition is_space (c : ascii) : bool :=
  between 9 13 c || between 28 32 c || between 133 133 c || between 160 160 c.

(** The class [\w] of a [str] pattern: alphanumeric or underscore. *)
Definition is_word (c : ascii) : bool :=
  between 48 57 c || between 65 90 c || between 95 95 c || between 97 122 c
  || between 170 170 c || between 178 179 c || between 181 181 c
  || between 185 186 c || between 188 190 c || between 192 214 c
  || between 216 246 c || between 248 255 c.

(** [s.split()]: the maximal runs of non-space characters, [cur] is the run
    being read. *)
Fixpoint split_from (cur : string) (s : string) : list string :=
  match s with
  | EmptyString => match cur with EmptyString => [] | _ => [cur] end
  | String c s' =>
      if is_space c
      then match cur with
           | EmptyString => split_from EmptyString s'
           | _ => cur :: split_from EmptyString s'
           end
      else split_from (cur ++ String c EmptyString) s'
  end.

Definition split (s : string) : list string := split_from EmptyString s.

(** [len(s.split())] *)
Definition word_count (s : string) : Z := Z.of_nat (List.length (split s)).

(** [s.startswith(p)], with the rest of [s]. *)
Fixpoint strip_prefix (p s : string) : option string :=
  match p, s with
  | EmptyString, _ => Some s
  | String a p', String b s' => if Ascii.eqb a b then strip_prefix p' s' else None
  | String _ _, EmptyString => None
  end.

(** [needle in hay] *)
Fixpoint occurs (needle hay : string) : bool :=
  match strip_prefix needle hay with
  | Some _ => true
  | None => match hay with
            | EmptyString => false
            | String _ hay' => occurs needle hay'
            end
  end.

(** [c in s] for one character. *)
Fixpoint has_char (c : ascii) (s : string) : bool :=
  match s with
  | EmptyString => false
  | String a s' => Ascii.eqb a c || has_char c s'
  end.

End Text.

(** ** The three patterns of the simulator *)

Module Re.

(** [(.*?)stop] under [re.DOTALL], matched at the start of [s]: the
    shortest text before an occurrence of [stop], and what follows it. *)
Fixpoint lazy_until (stop : string) (s : string) : option (string * string) :=
  match Text.strip_prefix stop s with
  | Some rest => Some (EmptyString, rest)
  | None =>
      match s with
      | EmptyString => None
      | String c s' =>
          match lazy_until stop s' with
          | Some (g, rest) => Some (String c g, rest)
          | None => None
          end
      end
  end.

(** [\w*], greedy, matched at the start of [s]: the longest run of word
    characters and the rest. *)
Fixpoint word_run (s : string) : string * string :=
  match s with
  | EmptyString => (EmptyString, EmptyString)
  | String c s' =>
      if Text.is_word c
      then let (w, rest) := word_run s' in (String c w, rest)
      else (EmptyString, s)
  end.

(** [re.search]: the match at the leftmost position where the pattern
    matches; [m] is the pattern matched at the start of its argument. *)
Fixpoint search {A : Type} (m : string -> option A) (s : string) : option A :=
  match m s with
  | Some r => Some r
  | None =>
      match s with
      | EmptyString => None
      | String _ s' => search m s'
      end
  end.

(** [FINAL\((.*?)\)] at the start of [s]; the result is group 1. *)
Definition match_FINAL (s : string) : option string :=
  match Text.strip_prefix "FINAL(" s with
  | Some rest => option_map fst (lazy_until ")" rest)
  | None => None
  end.

(** [FINAL_VAR\((\w+)\)] at the start of [s]; the result is group 1.  The
    greedy run is the only candidate: after a shorter one the next
    character is a word character, never the closing parenthesis. *)
Definition match_FINAL_VAR (s : string) : option string :=
  match Text.strip_prefix "FINAL_VAR(" s with
  | Some rest =>
      match word_run rest with
      | (EmptyString, _) => None
      | (w, rest') =>
          match Text.strip_prefix ")" rest' with
          | Some _ => Some w
          | None => None
          end
      end
  | None => None
  end.

Definition fence_open : string := "```repl" ++ String LF EmptyString.
Definition fence_close : string := "```".

(** The pattern of [extract_code_blocks] at the start of [s]; the result is
    group 1. *)
Definition match_repl (s : string) : option string :=
  match Text.strip_prefix fence_open s with
  | Some rest => option_map fst (lazy_until fence_close rest)
  | None => None
  end.

(** [re.findall] for that pattern: the groups of the successive
    non-overlapping matches, left to right.  [skip] counts the characters
    of the last match that are still to be passed over. *)
Fixpoint findall_repl (skip : nat) (s : string) : list string :=
  match skip with
  | S k =>
      match s with
      | EmptyString => []
      | String _ s' => findall_repl k s'
      end
  | O =>
      match match_repl s with
      | Some g =>
          g :: match s with
               | EmptyString => []
               | String _ s' =>
                   findall_repl
                     (String.length fence_open + String.length g
                      + String.length fence_close - 1) s'
               end
      | None =>
          match s with
          | EmptyString => []
          | String _ s' => findall_repl 0 s'
          end
      end
  end.

End Re.

(** ** Dictionaries *)

Module Dict.

(** A [dict] with [str] keys, in insertion order. *)
Definition t (V : Type) : Type := list (string * V).

Section Ops.
Context {V : Type}.

(** [d.get(k)] *)
Fixpoint get (k : string) (d : t V) : option V :=
  match d with
  | [] => None
  | (k', v) :: d' => if String.eqb k' k then Some v else get k d'
  end.

(** [d[k] = v]: the value of a present key is replaced where it stands, a
    new key goes to the end. *)
Fixpoint set (k : string) (v : V) (d : t V) : t V :=
  match d with
  | [] => [(k, v)]
  | (k', v') :: d' =>
      if String.eqb k' k then (k', v) :: d' else (k', v') :: set k v d'
  end.

(** [del d[k]] for a present key (an absent one is left to the caller). *)
Fixpoint del (k : string) (d : t V) : t V :=
  match d with
  | [] => []
  | (k', v') :: d' => if String.eqb k' k then d' else (k', v') :: del k d'
  end.

(** [d.update(other)] *)
Definition update (d other : t V) : t V :=
  fold_left (fun acc kv => set (fst kv) (snd kv) acc) other d.

(** [list(d.keys())] *)
Definition keys (d : t V) : list string := map fst d.

End Ops.

End Dict.

(** ** Values, code blocks and the session state *)

(** What a call gives: its value, or the exception [e] it raises ([msg] is
    [str(e)]). *)
Inductive fallible (A : Type) : Type :=
| Ok (a : A)
| Err (msg : string).
Arguments Ok {A} a.
Arguments Err {A} msg.

(** How a call fails to return: an exception leaves it ([msg] is its
    text), or it runs for ever. *)
Inductive abort : Type :=
| Propagates (msg : string)
| NeverReturns.

(** A Python object as far as the simulator looks at it.  [VObject text] is
    an object that no code changes (a function, a module, a class), with
    the text that [str] gives for it.  [VShared id text] is an object that
    code can change in place (a list, an instance): [id] is its identity
    and [text] is what [str] gives for it now, a text or an exception. *)
Inductive value : Type :=
| VNone
| VBool (b : bool)
| VInt (n : Z)
| VStr (s : string)
| VObject (text : string)
| VShared (id : nat) (text : fallible string).

(** [sys.get_int_max_str_digits()], as CPython sets it. *)
Definition int_max_str_digits : nat := 4300.

Definition int_limit_message : string :=
  "Exceeds the limit (4300 digits) for integer string conversion; use sys.set_int_max_str_digits() to increase the limit".

(** [str(v)]: it raises for an integer of more digits than the limit, and
    for an object whose own conversion raises. *)
Definition py_str (v : value) : fallible string :=
  match v with
  | VNone => Ok "None"
  | VBool true => Ok "True"
  | VBool false => Ok "False"
  | VInt n =>
      if (int_max_str_digits <? String.length (Text.of_Z (Z.abs n)))%nat
      then Err int_limit_message
      else Ok (Text.of_Z n)
  | VStr s => Ok s
  | VObject text => Ok text
  | VShared _ text => text
  end.

(** The argument of a sub-call: a [str]; an object on which
    [len(prompt.split())] raises ([PNoSplit], as an integer: [msg] is the
    text of that exception); or an object that is no [str] and splits
    into [words] parts, on which [llm_query] raises later ([PSplit], as
    [bytes], which [simulated_llm] cannot search for a [str]: [msg] is
    the text of that exception). *)
Inductive prompt_arg : Type :=
| PStr (s : string)
| PNoSplit (msg : string)
| PSplit (words : nat) (msg : string).

(** What running a code block amounts to, seen from [execute_repl_code]:
    the block reads and writes the dictionary of globals it is given,
    changes objects in place, writes text through the [print] it is
    given, calls the [llm_query] it is given, and ends by running off its
    end ([Ret]), with an [Exception] [e] that has a text ([Raise], [msg]
    is [str(e)]), with an exception that [execute_repl_code] lets
    through ([Exit]: one that is no [Exception], as [SystemExit] or
    [KeyboardInterrupt], or one whose [str] raises; [msg] is the text of
    the exception that leaves [execute_repl_code]), or never ([Hang]). *)
Inductive code : Type :=
| Ret
| Raise (msg : string)
| Exit (msg : string)
| Hang
| Globals (k : Dict.t value -> code)
| Store (name : string) (v : value) (k : code)
| Delete (name : string) (k : code)
| Mutate (id : nat) (text : fallible string) (k : code)
| Print (text : string) (k : code)
| Query (prompt : prompt_arg) (k : fallible string -> code).

(** How [exec] ends. *)
Inductive outcome : Type :=
| Finished
| Raised (msg : string)
| Exited (msg : string)
| Hung.

(** [class REPLState] *)
Record REPLState : Type := {
  context : string;
  variables : Dict.t value;
  output_buffer : string;
  sub_call_count : Z;
  total_tokens_root : Z;
  total_tokens_sub : Z
}.

(** [REPLState(context=context)] *)
Definition new_state (ctx : string) : REPLState :=
  {| context := ctx; variables := []; output_buffer := "";
     sub_call_count := 0; total_tokens_root := 0; total_tokens_sub := 0 |}.

Definition set_variables (vars : Dict.t value) (st : REPLState) : REPLState :=
  {| context := context st; variables := vars;
     output_buffer := output_buffer st;
     sub_call_count := sub_call_count st;
     total_tokens_root := total_tokens_root st;
     total_tokens_sub := total_tokens_sub st |}.

Definition set_output_buffer (out : string) (st : REPLState) : REPLState :=
  {| context := context st; variables := variables st;
     output_buffer := out;
     sub_call_count := sub_call_count st;
     total_tokens_root := total_tokens_root st;
     total_tokens_sub := total_tokens_sub st |}.

Definition set_sub_call_count (n : Z) (st : REPLState) : REPLState :=
  {| context := context st; variables := variables st;
     output_buffer := output_buffer st;
     sub_call_count := n;
     total_tokens_root := total_tokens_root st;
     total_tokens_sub := total_tokens_sub st |}.

Definition set_total_tokens_root (n : Z) (st : REPLState) : REPLState :=
  {| context := context st; variables := variables st;
     output_buffer := output_buffer st;
     sub_call_count := sub_call_count st;
     total_tokens_root := n;
     total_tokens_sub := total_tokens_sub st |}.

Definition set_total_tokens_sub (n : Z) (st : REPLState) : REPLState :=
  {| context := context st; variables := variables st;
     output_buffer := output_buffer st;
     sub_call_count := sub_call_count st;
     total_tokens_root := total_tokens_root st;
     total_tokens_sub := n |}.

(** The names [execute_repl_code] does not save:
    [('context', 'llm_query', 'print', 're', 'json', '__builtins__')]. *)
Definition reserved : list string :=
  ["context"; "llm_query"; "print"; "re"; "json"; "__builtins__"].

Definition is_reserved (k : string) : bool := existsb (String.eqb k) reserved.

(** The dictionary literal [exec_globals] starts from.  The text of the
    four objects depends on the installation (an address, a path); the
    texts below stand for them and nothing depends on them. *)
Definition injected (ctx : string) : Dict.t value :=
  [("context", VStr ctx);
   ("llm_query", VObject "<bound method RLMSimulator.llm_query>");
   ("print", VObject "<function RLMSimulator.execute_repl_code.<locals>.<lambda>>");
   ("re", VObject "<module 're'>");
   ("json", VObject "<module 'json'>")].

Definition builtins : value := VObject "<module 'builtins' (built-in)>".

(** The loop [for k, v in exec_globals.items(): if k not in (...):
    self.state.variables[k] = v]. *)
Definition save_new_variables (exec_globals vars : Dict.t value) : Dict.t value :=
  fold_left
    (fun acc kv => if is_reserved (fst kv) then acc else Dict.set (fst kv) (snd kv) acc)
    exec_globals vars.

(** The object [id] changed in place, seen from a value: the value is that
    object, and now reads [text], or it is left alone. *)
Definition retext_value (id : nat) (text : fallible string) (v : value) : value :=
  match v with
  | VShared i _ => if Nat.eqb i id then VShared i text else v
  | _ => v
  end.

(** The object [id] changed in place, seen from a dictionary that may hold
    it under several names. *)
Definition retext (id : nat) (text : fallible string) (d : Dict.t value)
  : Dict.t value :=
  map (fun kv => (fst kv, retext_value id text (snd kv))) d.

(** The first prompt, an f-string over [len(context)] and [query]. *)
Definition system_prompt (context_len : nat) (query : string) : string :=
  "You have access to a REPL environment with:
- `context`: A string variable (" ++ Text.of_nat context_len ++ " chars) containing documents
- `llm_query(prompt)`: Function to query a sub-LLM
- `print()`: To output results

Write code to explore the context and answer: " ++ query ++ "

When ready, use FINAL(answer) or FINAL_VAR(variable_name) to return.".

(** The prompt of every later iteration, an f-string over
    [self.state.output_buffer] and [query]. *)
Definition next_prompt (output_buffer : string) (query : string) : string :=
  "Previous REPL output:
" ++ output_buffer ++ "

Continue exploring to answer: " ++ query ++ "
Use FINAL(answer) when ready.".

(** [if final:] on an [Optional[str]]: [None] and the empty text are false. *)
Definition truthy (final : option string) : option string :=
  match final with
  | Some EmptyString => None
  | other => other
  end.

(** One pass of the [while] loop, as the trace of a run records it: the
    prompt sent to the agent on the root path, its response, the state
    the pass began with and the state it left. *)
Record Pass : Type := {
  prompt : string;
  response : string;
  before : REPLState;
  after : REPLState
}.

(** How one pass of the loop ends: at [break], by going round again with
    the prompt built at its end, or by not returning ([Stop]): an
    exception left [check_final_answer] or [execute_repl_code], or a block
    runs for ever. *)
Inductive Step : Type :=
| Break (final : string) (st : REPLState)
| Continue (following : string) (st : REPLState)
| Stop (how : abort) (st : REPLState).

(** The dictionary [run] returns. *)
Record RunResult : Type := {
  iterations : Z;
  sub_calls : Z;
  root_tokens : Z;
  sub_tokens : Z;
  variable_names : list string
}.

(** A run: its passes, the state it ended in, how it stopped when it did
    not return ([stopped]), the answer it announced at [break] if any,
    and the dictionary it returns ([result]; for a run that does not
    return, what [self.iteration], the counters and the keys were when it
    stopped). *)
Record Run : Type := {
  result : RunResult;
  answer : option string;
  final_state : REPLState;
  passes : list Pass;
  stopped : option abort
}.

(** ** The simulator *)

Section Simulator.

(** The agent: [simulated_llm(prompt, is_sub_call)]. *)
Variable simulated_llm : string -> bool -> string.

(** What a code block does when Python runs it. *)
Variable python : string -> code.

(** [RLMSimulator.llm_query]: the call is counted, then
    [len(prompt.split())] is charged, or raises; a prompt that is split
    and is no [str] makes the call raise after it is charged. *)
Definition llm_query (prompt : prompt_arg) (st : REPLState)
  : fallible string * REPLState :=
  let st := set_sub_call_count (sub_call_count st + 1) st in
  match prompt with
  | PNoSplit msg => (Err msg, st)
  | PSplit words msg =>
      let st := set_total_tokens_sub
                  (total_tokens_sub st + (Z.of_nat words + 50)) st in
      (Err msg, st)
  | PStr s =>
      let st := set_total_tokens_sub
                  (total_tokens_sub st + (Text.word_count s + 50)) st in
      (Ok (simulated_llm s true), st)
  end.

(** The block [c] run on the globals [g], with [out] the text captured so
    far.  An object changed in place changes in the globals and in
    [variables]; an exception of a sub-call is handed to the block. *)
Fixpoint perform (c : code) (g : Dict.t value) (out : string) (st : REPLState)
  : outcome * Dict.t value * string * REPLState :=
  match c with
  | Ret => (Finished, g, out, st)
  | Raise msg => (Raised msg, g, out, st)
  | Exit msg => (Exited msg, g, out, st)
  | Hang => (Hung, g, out, st)
  | Globals k => perform (k g) g out st
  | Store name v k => perform k (Dict.set name v g) out st
  | Delete name k => perform k (Dict.del name g) out st
  | Mutate id text k =>
      perform k (retext id text g) out
        (set_variables (retext id text (variables st)) st)
  | Print text k => perform k g (out ++ text) st
  | Query p k => let (r, st') := llm_query p st in perform (k r) g out st'
  end.

(** [exec(code, exec_globals)]: [__builtins__] is put into the globals
    when they lack it, then the block runs. *)
Definition exec (src : string) (exec_globals : Dict.t value) (st : REPLState)
  : outcome * Dict.t value * string * REPLState :=
  let g := match Dict.get "__builtins__" exec_globals with
           | Some _ => exec_globals
           | None => Dict.set "__builtins__" builtins exec_globals
           end in
  perform (python src) g "" st.

(** The globals a block starts from. *)
Definition exec_globals_of (st : REPLState) : Dict.t value :=
  Dict.update (injected (context st)) (variables st).

(** The [try] statement of [execute_repl_code]: the outcome of [exec], the
    globals and the captured text it left, the state after it. *)
Definition sandbox (src : string) (st : REPLState)
  : outcome * Dict.t value * string * REPLState :=
  exec src (exec_globals_of st) st.

(** [RLMSimulator.execute_repl_code]: the output it returns, or how it
    fails to return, and the state it leaves.  [except Exception] lets
    the other exceptions through, and the f-string of its handler lets
    through what [str(e)] raises; then the output buffer is not
    written. *)
Definition execute_repl_code (src : string) (st : REPLState)
  : (string + abort) * REPLState :=
  match sandbox src st with
  | (Finished, g, out, st') =>
      let st' := set_variables (save_new_variables g (variables st')) st' in
      (inl out, set_output_buffer out st')
  | (Raised e, _, out, st') =>
      let output := out ++ "Error: " ++ e in
      (inl output, set_output_buffer output st')
  | (Exited e, _, _, st') => (inr (Propagates e), st')
  | (Hung, _, _, st') => (inr NeverReturns, st')
  end.

(** [RLMSimulator.extract_code_blocks] *)
Definition extract_code_blocks (response : string) : list string :=
  Re.findall_repl 0 response.

(** [RLMSimulator.check_final_answer]; [str] is applied outside any
    [try]. *)
Definition check_final_answer (response : string) (st : REPLState)
  : fallible (option string) :=
  match Re.search Re.match_FINAL response with
  | Some text => Ok (Some text)
  | None =>
      match Re.search Re.match_FINAL_VAR response with
      | Some var_name =>
          match py_str
                  match Dict.get var_name (variables st) with
                  | Some v => v
                  | None => VStr ("[Variable " ++ var_name ++ " not found]")
                  end
          with
          | Ok text => Ok (Some text)
          | Err msg => Err msg
          end
      | None => Ok None
      end
  end.

(** [for code in code_blocks: output = self.execute_repl_code(code)]: the
    blocks in order, up to one that does not return. *)
Fixpoint execute_blocks (code_blocks : list string) (st : REPLState)
  : option abort * REPLState :=
  match code_blocks with
  | [] => (None, st)
  | src :: rest =>
      match execute_repl_code src st with
      | (inl _, st') => execute_blocks rest st'
      | (inr how, st') => (Some how, st')
      end
  end.

(** The body of the [while] loop of [run]. *)
Definition iteration_body (query current_prompt : string) (st : REPLState) : Step :=
  let st := set_total_tokens_root
              (total_tokens_root st + (Text.word_count current_prompt + 100)) st in
  let response := simulated_llm current_prompt false in
  match check_final_answer response st with
  | Err msg => Stop (Propagates msg) st
  | Ok final =>
      match truthy final with
      | Some final => Break final st
      | None =>
          match execute_blocks (extract_code_blocks response) st with
          | (Some how, st) => Stop how st
          | (None, st) => Continue (next_prompt (output_buffer st) query) st
          end
      end
  end.

(** [while self.iteration < self.max_iterations]: [iteration] starts at 0
    and grows by one per pass, so [remaining] passes are left when the
    budget exceeds [iteration] by [remaining].  The result is the value
    of [self.iteration] at the exit, the answer announced at [break], the
    state, the passes made, and how the loop stopped when a pass did not
    return. *)
Fixpoint loop (query : string) (remaining : nat) (iteration : Z)
  (current_prompt : string) (st : REPLState)
  : Z * option string * REPLState * list Pass * option abort :=
  match remaining with
  | O => (iteration, None, st, [], None)
  | S remaining' =>
      let iteration := (iteration + 1)%Z in
      let pass after :=
        {| prompt := current_prompt;
           response := simulated_llm current_prompt false;
           before := st; after := after |} in
      match iteration_body query current_prompt st with
      | Break final st' => (iteration, Some final, st', [pass st'], None)
      | Stop how st' => (iteration, None, st', [pass st'], Some how)
      | Continue following st' =>
          let '(n, ans, st'', ps, how) :=
            loop query remaining' iteration following st' in
          (n, ans, st'', pass st' :: ps, how)
      end
  end.

(** [RLMSimulator(max_iterations).run(context, query)] *)
Definition run (max_iterations : Z) (ctx : string) (query : string) : Run :=
  let '(n, ans, st, ps, how) :=
    loop query (Z.to_nat max_iterations) 0
      (system_prompt (String.length ctx) query) (new_state ctx) in
  {| result := {| iterations := n;
                  sub_calls := sub_call_count st;
                  root_tokens := total_tokens_root st;
                  sub_tokens := total_tokens_sub st;
                  variable_names := Dict.keys (variables st) |};
     answer := ans;
     final_state := st;
     passes := ps;
     stopped := how |}.

End Simulator.

(** ** The agent of the demonstration *)

Definition DQ : string := String "034"%char EmptyString.

(** The lines of a text, joined by line feeds. *)
Definition join_lines (l : list string) : string :=
  String.concat (String LF EmptyString) l.

(** [c.lower()]: the capital letters A-Z and, above 127, the capital
    letters 192-214 and 216-222, are 32 below their small letter. *)
Definition lower_char (c : ascii) : ascii :=
  if Text.between 65 90 c || Text.between 192 214 c || Text.between 216 222 c
  then ascii_of_nat (nat_of_ascii c + 32)
  else c.

(** [s.lower()] *)
Fixpoint lower (s : string) : string :=
  match s with
  | EmptyString => EmptyString
  | String c s' => String (lower_char c) (lower s')
  end.

(** [s[:n]] *)
Fixpoint take (n : nat) (s : string) : string :=
  match n, s with
  | S n', String c s' => String c (take n' s')
  | _, _ => EmptyString
  end.

(** The response of the root agent to a prompt about the company or a summary. *)
Definition response_summary : string :=
  join_lines
    ["";
     "I'll explore the context systematically to build a company summary.";
     "";
     "```repl";
     "# First, let's see the structure of the context";
     "print(f" ++ DQ ++ "Context length: {len(context)} characters" ++ DQ ++ ")";
     "print(" ++ DQ ++ "First 500 chars:" ++ DQ ++ ")";
     "print(context[:500])";
     "```";
     ""].

(** The response of the root agent to a prompt that names a chunk or a document. *)
Definition response_documents : string :=
  join_lines
    ["";
     "Let me process each document section:";
     "";
     "```repl";
     "# Split by document markers and analyze each";
     "import re";
     "docs = re.split(r'=== DOCUMENT \d+:', context)";
     "docs = [d.strip() for d in docs if d.strip()]";
     "";
     "print(f" ++ DQ ++ "Found {len(docs)} documents" ++ DQ ++ ")";
     "";
     "# Query sub-LLM for each document type";
     "summaries = []";
     "for i, doc in enumerate(docs[:3]):  # Process first 3";
     "    summary = llm_query(f" ++ DQ ++ "Summarize key facts from: {doc[:500]}" ++ DQ ++ ")";
     "    summaries.append(summary)";
     "    print(f" ++ DQ ++ "Doc {i+1}: {summary}" ++ DQ ++ ")";
     "```";
     ""].

(** The response of the root agent to a prompt about an acquisition. *)
Definition response_acquisition : string :=
  join_lines
    ["";
     "Let me search for acquisition-related information:";
     "";
     "```repl";
     "# Search for acquisition mentions";
     "lines = context.split('\n')";
     "acquisition_info = [l for l in lines if 'acquisition' in l.lower() or 'dataflow' in l.lower()]";
     "";
     "print(" ++ DQ ++ "Acquisition-related lines:" ++ DQ ++ ")";
     "for line in acquisition_info:";
     "    print(f" ++ DQ ++ "  - {line}" ++ DQ ++ ")";
     "";
     "# Get more details via sub-query";
     "details = llm_query(f" ++ DQ ++ "What acquisition details are in: {' '.join(acquisition_info)}" ++ DQ ++ ")";
     "print(f" ++ DQ ++ "\nDetails: {details}" ++ DQ ++ ")";
     "```";
     ""].

(** The response of the root agent to any other prompt. *)
Definition response_explore : string :=
  join_lines
    ["";
     "```repl";
     "# Explore the context";
     "print(f" ++ DQ ++ "Total context: {len(context)} chars" ++ DQ ++ ")";
     "print(context[:200])";
     "```";
     ""].

(** [simulated_llm], the hard-coded agent of the demonstration: it looks
    for key words in the prompt in small letters, in a fixed order. *)
Definition simulated_llm (prompt : string) (is_sub_call : bool) : string :=
  let prompt_lower := lower prompt in
  if is_sub_call then
    if Text.occurs "revenue" prompt_lower || Text.occurs "financial" prompt_lower
    then "Revenue is $45.2M, up 23% YoY. Net income $8.1M."
    else if Text.occurs "ceo" prompt_lower || Text.occurs "leadership" prompt_lower
    then "CEO: Sarah Chen, CFO: Marcus Williams"
    else if Text.occurs "product" prompt_lower || Text.occurs "launch" prompt_lower
    then "CloudSync Pro v3.0 launching Nov 1, 2025 at $99/user/month"
    else if Text.occurs "acquisition" prompt_lower
    then "Acquisition target: DataFlow Inc, pending due diligence"
    else if Text.occurs "market share" prompt_lower
            || Text.occurs "competitive" prompt_lower
    then "Current market share: 12%, target 20% by 2027"
    else "Analyzed chunk, found relevant info about: " ++ take 50 prompt ++ "..."
  else if Text.occurs "what is the company" prompt_lower
          || Text.occurs "summary" prompt_lower
  then response_summary
  else if Text.occurs "chunk" prompt_lower || Text.occurs "document" prompt_lower
  then response_documents
  else if Text.occurs "acquisition" prompt_lower
  then response_acquisition
  else response_explore.

(** ** Sample agents and a sample of Python *)

Definition line (s : string) : string := s ++ String LF EmptyString.

(** A string literal of Python source. *)
Definition quoted (s : string) : string :=
  String "034"%char s ++ String "034"%char EmptyString.

(** A response that consists of one fenced block. *)
Definition fenced (body : string) : string :=
  Re.fence_open ++ body ++ Re.fence_close.

(** An identity that no object of [g] has. *)
Definition fresh (g : Dict.t value) : nat :=
  S (fold_right
       (fun kv m => match snd kv with VShared i _ => Nat.max i m | _ => m end)
       0%nat g).

(** A block that defines a class whose instances have no text, and binds
    an instance. *)
Definition class_block : string :=
  line "class B:"
  ++ line "    def __str__(self):"
  ++ line ("        raise ValueError(" ++ quoted "no text" ++ ")")
  ++ line "x = B()".

(** A block that asks the process to end. *)
Definition exit_block : string := line "import sys" ++ line "sys.exit(3)".

(** [str] of a list of integers after [append(1)]. *)
Fixpoint but_last (s : string) : string :=
  match s with
  | EmptyString => EmptyString
  | String c EmptyString => EmptyString
  | String c s' => String c (but_last s')
  end.

Definition appended (text : string) : string :=
  if text =? "[]" then "[1]" else but_last text ++ ", 1]".

(** Some blocks with what Python does on each of them; any other text
    stands for a block that Python rejects when it compiles it.  The
    blocks of the sample bind [x] to an integer, to a list (an object
    with a text) or to an instance of [B] (an object without one), and
    [x.append(1)] is given for these and for [None], a [bool] and a
    [str]; for a function, a module or a class the text of its error
    stands for the one Python gives. *)
Definition sample_python (src : string) : code :=
  if src =? line "x = 5" then Store "x" (VInt 5) Ret
  else if src =? line "x = 7" then Store "x" (VInt 7) Ret
  else if src =? line "for i in range(3): pass" then
    Store "i" (VInt 0) (Store "i" (VInt 1) (Store "i" (VInt 2) Ret))
  else if src =? line "import math" then
    Store "math" (VObject "<module 'math' (built-in)>") Ret
  else if src =? line "del x" then
    Globals (fun g =>
      match Dict.get "x" g with
      | Some _ => Delete "x" Ret
      | None => Raise "name 'x' is not defined"
      end)
  else if src =? line "print(context)" then
    Globals (fun g =>
      match Dict.get "context" g with
      | Some v =>
          match py_str v with
          | Ok text => Print (line text) Ret
          | Err msg => Raise msg
          end
      | None => Raise "name 'context' is not defined"
      end)
  else if src =? line "x = 5" ++ line "1/0" then
    Store "x" (VInt 5) (Raise "division by zero")
  else if src =? line "answer = llm_query(str(context))" then
    Globals (fun g =>
      match Dict.get "context" g with
      | Some v =>
          match py_str v with
          | Ok text =>
              Query (PStr text)
                (fun r =>
                   match r with
                   | Ok t => Store "answer" (VStr t) Ret
                   | Err msg => Raise msg
                   end)
          | Err msg => Raise msg
          end
      | None => Raise "name 'context' is not defined"
      end)
  else if src =? line ("answer = " ++ quoted "Revenue is $45.2M") then
    Store "answer" (VStr "Revenue is $45.2M") Ret
  else if src =? line "x = []" then
    Globals (fun g => Store "x" (VShared (fresh g) (Ok "[]")) Ret)
  else if src =? line "x.append(1)" ++ line "1/0" then
    Globals (fun g =>
      match Dict.get "x" g with
      | None => Raise "name 'x' is not defined"
      | Some (VInt _) => Raise "'int' object has no attribute 'append'"
      | Some (VShared i (Ok text)) =>
          Mutate i (Ok (appended text)) (Raise "division by zero")
      | Some (VShared _ (Err _)) => Raise "'B' object has no attribute 'append'"
      | Some VNone => Raise "'NoneType' object has no attribute 'append'"
      | Some (VBool _) => Raise "'bool' object has no attribute 'append'"
      | Some (VStr _) => Raise "'str' object has no attribute 'append'"
      | Some (VObject _) => Raise "object has no attribute 'append'"
      end)
  else if src =? class_block then
    Globals (fun g =>
      Store "B" (VObject "<class 'B'>")
        (Store "x" (VShared (fresh g) (Err "no text")) Ret))
  else if src =? exit_block then
    Store "sys" (VObject "<module 'sys' (built-in)>") (Exit "3")
  else if src =? line "while True: pass" then Hang
  else if src =? line "llm_query(5)" then
    Query (PNoSplit "'int' object has no attribute 'split'")
      (fun r =>
         match r with
         | Ok _ => Ret
         | Err msg => Raise msg
         end)
  else if src =? line ("llm_query(b" ++ quoted "a b" ++ ")") then
    Query (PSplit 2 "a bytes-like object is required, not 'str'")
      (fun r =>
         match r with
         | Ok _ => Ret
         | Err msg => Raise msg
         end)
  else Raise "invalid syntax (<string>, line 1)".

(** Is [p] the first prompt of a run? *)
Definition is_first_prompt (p : string) : bool :=
  match Text.strip_prefix "You have access" p with
  | Some _ => true
  | None => false
  end.

(** An agent that answers every prompt with the same block. *)
Definition agent_block (body : string) (p : string) (is_sub_call : bool) : string :=
  if is_sub_call then "Revenue is $45.2M" else fenced body.

(** An agent that answers the first prompt with [r1] and the later ones
    with [r2]. *)
Definition agent_two (r1 r2 : string) (p : string) (is_sub_call : bool) : string :=
  if is_sub_call then "Revenue is $45.2M"
  else if is_first_prompt p then r1 else r2.

(** An agent that answers the first prompt with [r1], a prompt that
    reports an error with [r3], and any other prompt with [r2]. *)
Definition agent_three (r1 r2 r3 : string) (p : string) (is_sub_call : bool)
  : string :=
  if is_sub_call then "Revenue is $45.2M"
  else if is_first_prompt p then r1
  else if Text.occurs "Error: " p then r3 else r2.

(** ** The vocabulary of the properties *)

(** The response holds a literal final-answer marker. *)
Definition has_literal_marker (r : string) : Prop :=
  exists pre text post, r = pre ++ "FINAL(" ++ text ++ ")" ++ post.

(** [s] is a non-empty run of word characters. *)
Fixpoint all_word (s : string) : bool :=
  match s with
  | EmptyString => true
  | String c s' => Text.is_word c && all_word s'
  end.

Definition identifier (s : string) : Prop := s <> "" /\ all_word s = true.

(** The response holds a variable-reference marker. *)
Definition has_variable_marker (r : string) : Prop :=
  exists pre name post,
    r = pre ++ "FINAL_VAR(" ++ name ++ ")" ++ post /\ identifier name.

(** The three counters of [a] are at most those of [b]. *)
Definition counters_le (a b : REPLState) : Prop :=
  (sub_call_count a <= sub_call_count b)%Z
  /\ (total_tokens_root a <= total_tokens_root b)%Z
  /\ (total_tokens_sub a <= total_tokens_sub b)%Z.

(** Every key of [a] is a key of [b]. *)
Definition keys_kept (a b : REPLState) : Prop :=
  incl (Dict.keys (variables a)) (Dict.keys (variables b)).

(** [b] is a later state of the session that was in state [a]: the same
    data, counters at least as large, every key still there, and keys
    still distinct if they were. *)
Definition later (a b : REPLState) : Prop :=
  context b = context a
  /\ counters_le a b
  /\ keys_kept a b
  /\ (NoDup (Dict.keys (variables a)) -> NoDup (Dict.keys (variables b))).

(** The states a run goes through: the one it starts in, then the one
    each pass leaves. *)
Definition states_of (ctx : string) (r : Run) : list REPLState :=
  new_state ctx :: map after (passes r).

(** The shape of a pass: its response is the agent's answer to its prompt,
    and its two states are those of the loop body. *)
Definition pass_of_body (llm : string -> bool -> string) (py : string -> code)
  (query : string) (x : Pass) : Prop :=
  response x = llm (prompt x) false
  /\ match iteration_body llm py query (prompt x) (before x) with
     | Break _ st' => after x = st'
     | Continue _ st' => after x = st'
     | Stop _ st' => after x = st'
     end.

(** The externalization property as the specification words it: no
    prompt after the first holds the text of the data. *)
Definition externalized (llm : string -> bool -> string) (py : string -> code)
  (max_iterations : Z) (ctx query : string) : Prop :=
  forall p, In p (tl (passes (run llm py max_iterations ctx query))) ->
    Text.occurs ctx (prompt p) = false.

(** Fault containment as the specification words it, for its last part:
    what the block had bound when it failed is in [variables] afterwards. *)
Definition fault_keeps_bindings (llm : string -> bool -> string)
  (py : string -> code) (src : string) (st : REPLState) : Prop :=
  forall msg g out st1,
    sandbox llm py src st = (Raised msg, g, out, st1) ->
    forall k v, is_reserved k = false -> Dict.get k g = Some v ->
      Dict.get k (variables (snd (execute_repl_code llm py src st))) = Some v.

(** The pass without marker and without block as the specification words
    it: it leaves [variables] as they were and the output buffer empty. *)
Definition idle_pass_clears_output (llm : string -> bool -> string)
  (py : string -> code) (max_iterations : Z) (ctx query : string) : Prop :=
  forall p, In p (passes (run llm py max_iterations ctx query)) ->
    ~ has_literal_marker (response p) ->
    ~ has_variable_marker (response p) ->
    extract_code_blocks (response p) = [] ->
    variables (after p) = variables (before p) /\ output_buffer (after p) = "".

(** The response holds a fenced code block. *)
Definition has_code_block (r : string) : Prop :=
  exists pre body post,
    r = pre ++ Re.fence_open ++ body ++ Re.fence_close ++ post.

(** What the passes of a run cost on the root path:
    [len(current_prompt.split()) + 100] for each. *)
Definition root_cost (ps : list Pass) : Z :=
  fold_right (fun x acc => (Text.word_count (prompt x) + 100 + acc)%Z) 0%Z ps.

(** No reserved name is a key of [variables]. *)
Definition no_reserved_key (st : REPLState) : Prop :=
  forall k, is_reserved k = true -> Dict.get k (variables st) = None.

(** Every sub-call counted so far was charged 50 tokens or more. *)
Definition sub_calls_charged (st : REPLState) : Prop :=
  (0 <= sub_call_count st /\ 50 * sub_call_count st <= total_tokens_sub st)%Z.


(** [v] and [w] are the same object: the same identity for objects that
    code can change in place, the same value otherwise. *)
Definition same_object (v w : value) : Prop :=
  match v, w with
  | VShared i _, VShared j _ => i = j
  | VShared _ _, _ => False
  | _, VShared _ _ => False
  | _, _ => v = w
  end.

(** [v] is no object that code can change in place. *)
Definition immutable (v : value) : Prop :=
  match v with
  | VShared _ _ => False
  | _ => True
  end.

(** [d] and [e] bind the same names, in the same order, to the same
    objects. *)
Definition same_bindings (d e : Dict.t value) : Prop :=
  Forall2 (fun a b => fst a = fst b /\ same_object (snd a) (snd b)) d e.

(** Every sub-call that the block can make has a prompt in [Q]. *)
Fixpoint prompts_all (Q : prompt_arg -> Prop) (c : code) : Prop :=
  match c with
  | Ret | Raise _ | Exit _ | Hang => True
  | Globals k => forall g, prompts_all Q (k g)
  | Store _ _ k | Delete _ k | Mutate _ _ k | Print _ k => prompts_all Q k
  | Query p k => Q p /\ forall r, prompts_all Q (k r)
  end.

(** Every sub-call that a block of a response of the agent on the root
    path can make has a prompt in [Q]. *)
Definition blocks_prompt (Q : prompt_arg -> Prop)
  (llm : string -> bool -> string) (py : string -> code) : Prop :=
  forall p,
    Forall (fun src => prompts_all Q (py src)) (extract_code_blocks (llm p false)).

(** The prompt of a sub-call can be split and counted, as every [str]
    can. *)
Definition has_split (p : prompt_arg) : Prop :=
  match p with
  | PNoSplit _ => False
  | PStr _ | PSplit _ _ => True
  end.

(** The block returns to [execute_repl_code], off its end or with an
    [Exception], whatever it finds: it neither ends the process nor runs
    for ever. *)
Fixpoint settles (c : code) : Prop :=
  match c with
  | Ret | Raise _ => True
  | Exit _ | Hang => False
  | Globals k => forall g, settles (k g)
  | Store _ _ k | Delete _ k | Mutate _ _ k | Print _ k => settles k
  | Query _ k => forall r, settles (k r)
  end.

(** Every block of every response of the agent on the root path settles. *)
Definition blocks_settle (llm : string -> bool -> string) (py : string -> code)
  : Prop :=
  forall p, Forall (fun src => settles (py src)) (extract_code_blocks (llm p false)).

(** The variable-reference branch as the specification words it: for a
    name that is a key, the detector returns a text. *)
Definition resolves_variable (r : string) (st : REPLState) : Prop :=
  forall name v,
    ~ has_literal_marker r ->
    Re.search Re.match_FINAL_VAR r = Some name ->
    Dict.get name (variables st) = Some v ->
    exists text, check_final_answer r st = Ok (Some text).

(** Budget exhaustion as the specification words it: without a marker in
    any response, [run] returns after exactly [max_iterations] passes,
    without an answer. *)
Definition exhausts_budget (llm : string -> bool -> string) (py : string -> code)
  (max_iterations : Z) (ctx query : string) : Prop :=
  (forall p, ~ has_literal_marker (llm p false)
             /\ ~ has_variable_marker (llm p false)) ->
  let r := run llm py max_iterations ctx query in
  stopped r = None
  /\ iterations (result r) = max_iterations
  /\ answer r = None.
(** * Properties *)

(** ** Text and patterns *)

Lemma strip_prefix_Some (p s r : string) :
  Text.strip_prefix p s = Some r <-> s = p ++ r.
Proof.
  revert s; induction p as [|a p IH]; intros s; simpl.
  - split; intros H; [injection H as ->|subst]; reflexivity.
  - destruct s as [|b s].
    + split; discriminate.
    + destruct (Ascii.eqb_spec a b) as [->|Hne].
      * rewrite IH. split; intros H; [subst|injection H as ->]; reflexivity.
      * split; [discriminate|]. intros H; injection H as H _. congruence.
Qed.

Lemma strip_prefix_app (p r : string) : Text.strip_prefix p (p ++ r) = Some r.
Proof. apply strip_prefix_Some. reflexivity. Qed.

Lemma append_assoc (a b c : string) : (a ++ b) ++ c = a ++ b ++ c.
Proof. induction a as [|x a IH]; simpl; [|rewrite IH]; reflexivity. Qed.

Lemma append_empty_r (a : string) : a ++ "" = a.
Proof. induction a as [|x a IH]; simpl; [|rewrite IH]; reflexivity. Qed.

Lemma has_char_app (c : ascii) (a b : string) :
  Text.has_char c (a ++ b) = Text.has_char c a || Text.has_char c b.
Proof.
  induction a as [|x a IH]; simpl; [reflexivity|].
  rewrite IH. apply orb_assoc.
Qed.

Lemma lazy_until_sound (stop s g r : string) :
  Re.lazy_until stop s = Some (g, r) -> s = g ++ stop ++ r.
Proof.
  revert g; induction s as [|c s IH]; intros g; cbn [Re.lazy_until].
  - destruct (Text.strip_prefix stop "") as [rest|] eqn:E; [|discriminate].
    intros H; injection H as <- <-. now apply strip_prefix_Some in E.
  - destruct (Text.strip_prefix stop (String c s)) as [rest|] eqn:E.
    + intros H; injection H as <- <-. now apply strip_prefix_Some in E.
    + destruct (Re.lazy_until stop s) as [[g' r']|]; [|discriminate].
      intros H; injection H as <- <-. simpl. f_equal. now apply IH.
Qed.

Lemma lazy_until_rparen (s g r : string) :
  Re.lazy_until ")" s = Some (g, r) -> Text.has_char ")" g = false.
Proof.
  revert g; induction s as [|c s IH]; intros g;
    cbn [Re.lazy_until Text.strip_prefix].
  - discriminate.
  - destruct (Ascii.eqb_spec ")" c) as [<-|Hne].
    + intros H; injection H as <- _. reflexivity.
    + destruct (Re.lazy_until ")" s) as [[g' r']|]; [|discriminate].
      intros H; injection H as <- <-. cbn [Text.has_char].
      rewrite (IH g' eq_refl).
      destruct (Ascii.eqb_spec c ")"); [congruence|reflexivity].
Qed.

Lemma lazy_until_unfold (stop s : string) :
  Re.lazy_until stop s =
  match Text.strip_prefix stop s with
  | Some rest => Some ("", rest)
  | None =>
      match s with
      | EmptyString => None
      | String c s' =>
          match Re.lazy_until stop s' with
          | Some (g, rest) => Some (String c g, rest)
          | None => None
          end
      end
  end.
Proof. destruct s; reflexivity. Qed.

Lemma lazy_until_first (stop g r : string) :
  Re.lazy_until stop (g ++ stop ++ r) <> None.
Proof.
  induction g as [|c g IH]; rewrite lazy_until_unfold; cbn [append].
  - rewrite strip_prefix_app. discriminate.
  - destruct (Text.strip_prefix stop (String c (g ++ stop ++ r))); [discriminate|].
    destruct (Re.lazy_until stop (g ++ stop ++ r)) as [[? ?]|]; [discriminate|].
    now elim IH.
Qed.

(** The text before the first closing parenthesis is what the lazy group
    takes. *)
Lemma lazy_until_rparen_exact (g r : string) :
  Text.has_char ")" g = false -> Re.lazy_until ")" (g ++ ")" ++ r) = Some (g, r).
Proof.
  induction g as [|c g IH]; intros H.
  - reflexivity.
  - cbn [Text.has_char] in H. apply orb_false_iff in H as [Hc Hg].
    cbn [append Re.lazy_until Text.strip_prefix].
    rewrite Ascii.eqb_sym, Hc. cbn [append] in IH. now rewrite (IH Hg).
Qed.

Lemma search_unfold {A : Type} (m : string -> option A) (s : string) :
  Re.search m s =
  match m s with
  | Some r => Some r
  | None => match s with EmptyString => None | String _ s' => Re.search m s' end
  end.
Proof. destruct s; reflexivity. Qed.

Lemma search_sound {A : Type} (m : string -> option A) (s : string) (x : A) :
  Re.search m s = Some x ->
  exists pre post, s = pre ++ post /\ m post = Some x
    /\ forall a b, pre = a ++ b -> b <> "" -> m (b ++ post) = None.
Proof.
  induction s as [|c s IH]; rewrite search_unfold.
  - destruct (m "") eqn:E; [|discriminate]. intros H; injection H as ->.
    exists "", "". repeat split; trivial.
    intros [|? ?] [|? ?]; simpl; congruence.
  - destruct (m (String c s)) eqn:E.
    + intros H; injection H as ->. exists "", (String c s). repeat split; trivial.
      intros [|? ?] [|? ?]; simpl; congruence.
    + intros H. destruct (IH H) as (pre & post & -> & Hm & Hleft).
      exists (String c pre), post. repeat split; trivial.
      intros [|a0 a] b Hab Hb; simpl in Hab.
      * subst b. exact E.
      * injection Hab as _ ->. now apply (Hleft a b).
Qed.

Lemma search_complete {A : Type} (m : string -> option A) (pre post : string) :
  m post <> None -> Re.search m (pre ++ post) <> None.
Proof.
  intros Hm. induction pre as [|c pre IH]; rewrite search_unfold; cbn [append].
  - destruct (m post); [discriminate|congruence].
  - destruct (m (String c (pre ++ post))); [discriminate|exact IH].
Qed.

Lemma match_FINAL_sound (s text : string) :
  Re.match_FINAL s = Some text ->
  exists post, s = "FINAL(" ++ text ++ ")" ++ post /\ Text.has_char ")" text = false.
Proof.
  unfold Re.match_FINAL.
  destruct (Text.strip_prefix "FINAL(" s) as [rest|] eqn:E; [|discriminate].
  apply strip_prefix_Some in E.
  destruct (Re.lazy_until ")" rest) as [[g r]|] eqn:L; [|discriminate].
  intros H; injection H as <-. exists r. split.
  - apply lazy_until_sound in L. now subst.
  - eapply lazy_until_rparen, L.
Qed.

Lemma match_FINAL_exact (text post : string) :
  Text.has_char ")" text = false ->
  Re.match_FINAL ("FINAL(" ++ text ++ ")" ++ post) = Some text.
Proof.
  intros H. unfold Re.match_FINAL. rewrite strip_prefix_app.
  now rewrite lazy_until_rparen_exact.
Qed.

Lemma match_FINAL_complete (text post : string) :
  Re.match_FINAL ("FINAL(" ++ text ++ ")" ++ post) <> None.
Proof.
  unfold Re.match_FINAL. rewrite strip_prefix_app.
  pose proof (lazy_until_first ")" text post) as H.
  destruct (Re.lazy_until ")" (text ++ ")" ++ post)); [discriminate|congruence].
Qed.

(** A response holds a literal marker exactly when the pattern is found. *)
Lemma search_FINAL_iff (r : string) :
  has_literal_marker r <-> Re.search Re.match_FINAL r <> None.
Proof.
  split.
  - intros (pre & text & post & ->). apply search_complete, match_FINAL_complete.
  - destruct (Re.search Re.match_FINAL r) as [text|] eqn:E; [|congruence].
    intros _. apply search_sound in E as (pre & post & -> & Hm & _).
    apply match_FINAL_sound in Hm as (post' & -> & _).
    now exists pre, text, post'.
Qed.

Lemma occurs_unfold (needle hay : string) :
  Text.occurs needle hay =
  match Text.strip_prefix needle hay with
  | Some _ => true
  | None => match hay with EmptyString => false | String _ h => Text.occurs needle h end
  end.
Proof. destruct hay; reflexivity. Qed.

Lemma occurs_intro (needle a b : string) :
  Text.occurs needle (a ++ needle ++ b) = true.
Proof.
  induction a as [|c a IH]; rewrite occurs_unfold; cbn [append].
  - now rewrite strip_prefix_app.
  - destruct (Text.strip_prefix needle (String c (a ++ needle ++ b))); [reflexivity|exact IH].
Qed.

Lemma occurs_elim (needle hay : string) :
  Text.occurs needle hay = true -> exists a b, hay = a ++ needle ++ b.
Proof.
  induction hay as [|c hay IH]; rewrite occurs_unfold.
  - destruct (Text.strip_prefix needle "") as [r|] eqn:E; [|discriminate].
    intros _. apply strip_prefix_Some in E. now exists "", r.
  - destruct (Text.strip_prefix needle (String c hay)) as [r|] eqn:E.
    + intros _. apply strip_prefix_Some in E. now exists "", r.
    + intros H. destruct (IH H) as (a & b & ->). now exists (String c a), b.
Qed.

Lemma word_run_sound (s w r : string) :
  Re.word_run s = (w, r) -> s = w ++ r /\ all_word w = true.
Proof.
  revert w; induction s as [|c s IH]; intros w; cbn [Re.word_run].
  - intros H; injection H as <- <-. now split.
  - destruct (Text.is_word c) eqn:Hc.
    + destruct (Re.word_run s) as [w' r'].
      intros H; injection H as <- <-.
      destruct (IH w' eq_refl) as [-> Hw]. split; [reflexivity|].
      cbn [all_word]. now rewrite Hc, Hw.
    + intros H; injection H as <- <-. now split.
Qed.

Lemma word_run_exact (w post : string) :
  all_word w = true -> Re.word_run (w ++ ")" ++ post) = (w, ")" ++ post).
Proof.
  induction w as [|c w IH]; intros H.
  - reflexivity.
  - cbn [all_word] in H. apply andb_true_iff in H as [Hc Hw].
    cbn [append Re.word_run]. rewrite Hc. cbn [append] in IH. now rewrite (IH Hw).
Qed.

Lemma match_FINAL_VAR_sound (s name : string) :
  Re.match_FINAL_VAR s = Some name ->
  exists post, s = "FINAL_VAR(" ++ name ++ ")" ++ post /\ identifier name.
Proof.
  unfold Re.match_FINAL_VAR.
  destruct (Text.strip_prefix "FINAL_VAR(" s) as [rest|] eqn:E; [|discriminate].
  apply strip_prefix_Some in E.
  destruct (Re.word_run rest) as [w r] eqn:W.
  apply word_run_sound in W as [-> Hw].
  destruct w as [|c w]; [discriminate|].
  destruct (Text.strip_prefix ")" r) as [post|] eqn:P; [|discriminate].
  apply strip_prefix_Some in P. intros H; injection H as <-.
  exists post. subst. split; [reflexivity|]. split; [discriminate|exact Hw].
Qed.

Lemma match_FINAL_VAR_exact (name post : string) :
  identifier name ->
  Re.match_FINAL_VAR ("FINAL_VAR(" ++ name ++ ")" ++ post) = Some name.
Proof.
  intros [Hne Hw]. unfold Re.match_FINAL_VAR. rewrite strip_prefix_app.
  rewrite (word_run_exact _ _ Hw). destruct name as [|c name]; [congruence|].
  now rewrite strip_prefix_app.
Qed.

(** A response holds a variable-reference marker exactly when the pattern
    is found. *)
Lemma search_FINAL_VAR_iff (r : string) :
  has_variable_marker r <-> Re.search Re.match_FINAL_VAR r <> None.
Proof.
  split.
  - intros (pre & name & post & -> & Hid). apply search_complete.
    now rewrite match_FINAL_VAR_exact.
  - destruct (Re.search Re.match_FINAL_VAR r) as [name|] eqn:E; [|congruence].
    intros _. apply search_sound in E as (pre & post & -> & Hm & _).
    apply match_FINAL_VAR_sound in Hm as (post' & -> & Hid).
    now exists pre, name, post'.
Qed.

Lemma match_FINAL_later (b x text post : string) :
  Re.match_FINAL ("FINAL(" ++ b ++ x ++ text ++ ")" ++ post) <> None.
Proof.
  replace (b ++ x ++ text ++ ")" ++ post) with ((b ++ x ++ text) ++ ")" ++ post)
    by (now rewrite !append_assoc).
  apply match_FINAL_complete.
Qed.

(** What [re.search] finds for the literal pattern: the text between the
    first [FINAL(] of the response and the first closing parenthesis
    after it. *)
Lemma search_FINAL_first (r text : string) :
  Re.search Re.match_FINAL r = Some text ->
  exists pre post,
    r = pre ++ "FINAL(" ++ text ++ ")" ++ post
    /\ Text.occurs "FINAL(" pre = false
    /\ Text.has_char ")" text = false.
Proof.
  intros E. apply search_sound in E as (pre & rest & -> & Hm & Hleft).
  apply match_FINAL_sound in Hm as (post & -> & Hno).
  exists pre, post. repeat split; trivial.
  destruct (Text.occurs "FINAL(" pre) eqn:O; [|reflexivity].
  apply occurs_elim in O as (a & b & ->).
  specialize (Hleft a ("FINAL(" ++ b) eq_refl). 
  assert (Hb : "FINAL(" ++ b <> "") by discriminate.
  specialize (Hleft Hb). rewrite append_assoc in Hleft.
  now apply match_FINAL_later in Hleft.
Qed.

(** [FINAL(] does not overlap itself: an occurrence that starts inside
    [p] lies inside [p]. *)
Lemma FINAL_no_overlap (p x : string) :
  p <> "" ->
  Text.strip_prefix "FINAL(" p = None ->
  Text.strip_prefix "FINAL(" (p ++ "FINAL(" ++ x) = None.
Proof.
  intros Hp.
  destruct p as [|c1 [|c2 [|c3 [|c4 [|c5 [|c6 p]]]]]]; [congruence|..];
    cbn [Text.strip_prefix append];
    repeat match goal with
    | |- context [Ascii.eqb ?a ?b] =>
        destruct (Ascii.eqb_spec a b); [subst|]
    end; try reflexivity; try discriminate; try congruence.
Qed.

Lemma search_FINAL_intro (pre text post : string) :
  Text.occurs "FINAL(" pre = false ->
  Text.has_char ")" text = false ->
  Re.search Re.match_FINAL (pre ++ "FINAL(" ++ text ++ ")" ++ post) = Some text.
Proof.
  intros Hpre Htext. set (rest := "FINAL(" ++ text ++ ")" ++ post).
  induction pre as [|c pre IH]; rewrite search_unfold.
  - change ("" ++ rest) with rest. unfold rest. now rewrite match_FINAL_exact.
  - rewrite occurs_unfold in Hpre.
    destruct (Text.strip_prefix "FINAL(" (String c pre)) eqn:E; [discriminate Hpre|].
    unfold Re.match_FINAL at 1. unfold rest at 1.
    rewrite (FINAL_no_overlap (String c pre) _ ltac:(discriminate) E).
    exact (IH Hpre).
Qed.

(** ** Dictionaries *)

Section DictFacts.
Context {V : Type}.
Implicit Types (d : Dict.t V) (k : string) (v : V).

Lemma get_set_same k v d : Dict.get k (Dict.set k v d) = Some v.
Proof.
  induction d as [|[k' v'] d IH]; cbn [Dict.set Dict.get].
  - now rewrite String.eqb_refl.
  - destruct (String.eqb_spec k' k) as [->|Hne]; cbn [Dict.get].
    + now rewrite String.eqb_refl.
    + destruct (String.eqb_spec k' k); [congruence|exact IH].
Qed.

Lemma get_set_other k k' v d :
  k <> k' -> Dict.get k' (Dict.set k v d) = Dict.get k' d.
Proof.
  intros Hne. induction d as [|[k0 v0] d IH]; cbn [Dict.set Dict.get].
  - destruct (String.eqb_spec k k'); [congruence|reflexivity].
  - destruct (String.eqb_spec k0 k) as [->|Hk]; cbn [Dict.get].
    + destruct (String.eqb_spec k k'); [congruence|reflexivity].
    + destruct (String.eqb_spec k0 k'); [reflexivity|exact IH].
Qed.

Lemma get_None_keys k d : Dict.get k d = None <-> ~ In k (Dict.keys d).
Proof.
  induction d as [|[k' v'] d IH]; cbn [Dict.get Dict.keys map fst In].
  - tauto.
  - destruct (String.eqb_spec k' k) as [->|Hne].
    + split; [discriminate|tauto].
    + rewrite IH. unfold Dict.keys. tauto.
Qed.

Lemma get_Some_keys k v d : Dict.get k d = Some v -> In k (Dict.keys d).
Proof.
  intros H. destruct (in_dec string_dec k (Dict.keys d)) as [Hin|Hout]; [exact Hin|].
  apply get_None_keys in Hout. congruence.
Qed.

(** Assigning to a present key leaves the list of keys as it is. *)
Lemma keys_set_present k v d :
  In k (Dict.keys d) -> Dict.keys (Dict.set k v d) = Dict.keys d.
Proof.
  induction d as [|[k' v'] d IH]; cbn [Dict.set Dict.keys map fst In]; [tauto|].
  intros Hin. destruct (String.eqb_spec k' k) as [->|Hne]; [reflexivity|].
  cbn [map fst]. f_equal. apply IH. tauto.
Qed.

(** Assigning to a new key puts it at the end. *)
Lemma keys_set_new k v d :
  ~ In k (Dict.keys d) -> Dict.keys (Dict.set k v d) = (Dict.keys d ++ [k])%list.
Proof.
  induction d as [|[k' v'] d IH]; cbn [Dict.set Dict.keys map fst In app];
    [reflexivity|].
  intros Hout. destruct (String.eqb_spec k' k) as [->|Hne]; [tauto|].
  cbn [map fst]. f_equal. apply IH. tauto.
Qed.

Lemma keys_set k v d :
  Dict.keys (Dict.set k v d) = Dict.keys d
  \/ (~ In k (Dict.keys d) /\ Dict.keys (Dict.set k v d) = (Dict.keys d ++ [k])%list).
Proof.
  destruct (in_dec string_dec k (Dict.keys d)) as [Hin|Hout].
  - left. now apply keys_set_present.
  - right. split; [exact Hout|now apply keys_set_new].
Qed.

Lemma NoDup_set k v d :
  NoDup (Dict.keys d) -> NoDup (Dict.keys (Dict.set k v d)).
Proof.
  intros Hd. destruct (keys_set k v d) as [->|[Hout ->]]; [exact Hd|].
  apply NoDup_app; [exact Hd|repeat constructor; intros []|].
  intros x Hx [<-|[]]. tauto.
Qed.

Lemma incl_set k v d : incl (Dict.keys d) (Dict.keys (Dict.set k v d)).
Proof.
  destruct (keys_set k v d) as [->|[_ ->]]; [apply incl_refl|].
  apply incl_appl, incl_refl.
Qed.

Lemma keys_del_incl k d : incl (Dict.keys (Dict.del k d)) (Dict.keys d).
Proof.
  induction d as [|[k' v'] d IH]; cbn [Dict.del Dict.keys map fst].
  - apply incl_refl.
  - destruct (String.eqb_spec k' k).
    + apply incl_tl, incl_refl.
    + cbn [map fst]. apply incl_cons; [now left|]. apply incl_tl, IH.
Qed.

Lemma NoDup_del k d :
  NoDup (Dict.keys d) -> NoDup (Dict.keys (Dict.del k d)).
Proof.
  induction d as [|[k' v'] d IH]; cbn [Dict.del Dict.keys map fst]; [trivial|].
  intros Hd. inversion Hd as [|? ? Hout Hd']; subst.
  destruct (String.eqb_spec k' k); [exact Hd'|].
  cbn [map fst]. constructor; [|now apply IH].
  intros Hin. apply Hout. now apply (keys_del_incl k d).
Qed.

(** The merging loops: [src] is gone through in order, and the entries
    whose key is not skipped are assigned in [dst]. *)
Section Merge.
Variable skip : string -> bool.

Local Abbreviation merge src dst :=
  (fold_left
     (fun acc kv => if skip (fst kv) then acc else Dict.set (fst kv) (snd kv) acc)
     src dst).

Lemma merge_get_absent k (src dst : Dict.t V) :
  ~ In k (Dict.keys src) -> Dict.get k (merge src dst) = Dict.get k dst.
Proof.
  revert dst; induction src as [|[k' v'] src IH]; intros dst Hout;
    cbn [fold_left fst snd]; [reflexivity|].
  cbn [Dict.keys map fst In] in Hout.
  rewrite IH by (unfold Dict.keys; tauto).
  destruct (skip k'); [reflexivity|]. apply get_set_other. tauto.
Qed.

Lemma merge_get_skipped k (src dst : Dict.t V) :
  skip k = true -> Dict.get k (merge src dst) = Dict.get k dst.
Proof.
  intros Hk. revert dst; induction src as [|[k' v'] src IH]; intros dst;
    cbn [fold_left fst snd]; [reflexivity|].
  rewrite IH. destruct (skip k') eqn:E; [reflexivity|].
  apply get_set_other. congruence.
Qed.

Lemma merge_get_bound k v (src dst : Dict.t V) :
  NoDup (Dict.keys src) -> skip k = false -> Dict.get k src = Some v ->
  Dict.get k (merge src dst) = Some v.
Proof.
  intros Hnd Hk. revert dst; induction src as [|[k' v'] src IH]; intros dst;
    cbn [fold_left fst snd Dict.get]; [discriminate|].
  cbn [Dict.keys map fst] in Hnd. inversion Hnd as [|? ? Hout Hnd']; subst.
  destruct (String.eqb_spec k' k) as [->|Hne].
  - intros H; injection H as ->. rewrite merge_get_absent by exact Hout.
    rewrite Hk. apply get_set_same.
  - intros H. now apply IH.
Qed.

Lemma merge_keys_incl (src dst : Dict.t V) :
  incl (Dict.keys dst) (Dict.keys (merge src dst)).
Proof.
  revert dst; induction src as [|[k' v'] src IH]; intros dst;
    cbn [fold_left fst snd]; [apply incl_refl|].
  eapply incl_tran; [|apply IH].
  destruct (skip k'); [apply incl_refl|apply incl_set].
Qed.

Lemma merge_NoDup (src dst : Dict.t V) :
  NoDup (Dict.keys dst) -> NoDup (Dict.keys (merge src dst)).
Proof.
  revert dst; induction src as [|[k' v'] src IH]; intros dst Hd;
    cbn [fold_left fst snd]; [exact Hd|].
  apply IH. destruct (skip k'); [exact Hd|now apply NoDup_set].
Qed.

End Merge.

Lemma update_NoDup (d other : Dict.t V) :
  NoDup (Dict.keys d) -> NoDup (Dict.keys (Dict.update d other)).
Proof. apply (merge_NoDup (fun _ => false)). Qed.

Lemma update_get_bound k v (d other : Dict.t V) :
  NoDup (Dict.keys other) -> Dict.get k other = Some v ->
  Dict.get k (Dict.update d other) = Some v.
Proof. intros Hnd. now apply (merge_get_bound (fun _ => false)). Qed.

Lemma update_get_absent k (d other : Dict.t V) :
  Dict.get k other = None ->
  Dict.get k (Dict.update d other) = Dict.get k d.
Proof. intros H. apply (merge_get_absent (fun _ => false)). now apply get_None_keys. Qed.

End DictFacts.

(** ** Objects changed in place *)

Lemma same_object_refl (v : value) : same_object v v.
Proof. destruct v; reflexivity. Qed.

Lemma same_object_trans (u v w : value) :
  same_object u v -> same_object v w -> same_object u w.
Proof.
  destruct u, v, w; cbn; try congruence; try contradiction; try discriminate.
Qed.

Lemma same_object_immutable (v w : value) :
  immutable v -> same_object v w -> w = v.
Proof. destruct v, w; cbn; congruence || contradiction. Qed.

Lemma same_object_retext (id : nat) (text : fallible string) (v : value) :
  same_object v (retext_value id text v).
Proof.
  destruct v; try reflexivity. cbn. now destruct (Nat.eqb id0 id).
Qed.

Lemma retext_immutable (id : nat) (text : fallible string) (v : value) :
  immutable v -> retext_value id text v = v.
Proof. now destruct v. Qed.

Lemma same_bindings_refl (d : Dict.t value) : same_bindings d d.
Proof.
  induction d as [|kv d IH]; constructor; [|exact IH].
  split; [reflexivity|apply same_object_refl].
Qed.

Lemma same_bindings_trans (a b c : Dict.t value) :
  same_bindings a b -> same_bindings b c -> same_bindings a c.
Proof.
  intros H. revert c. induction H as [|x y a b [Hk Ho] _ IH]; intros c Hc.
  - inversion Hc. constructor.
  - inversion Hc as [|y' z b' c' [Hk' Ho'] Hr]; subst. constructor.
    + split; [congruence|eapply same_object_trans; eassumption].
    + now apply IH.
Qed.

Lemma same_bindings_retext (id : nat) (text : fallible string) (d : Dict.t value) :
  same_bindings d (retext id text d).
Proof.
  induction d as [|kv d IH]; constructor; [|exact IH].
  split; [reflexivity|apply same_object_retext].
Qed.

Lemma same_bindings_keys (d e : Dict.t value) :
  same_bindings d e -> Dict.keys e = Dict.keys d.
Proof.
  induction 1 as [|x y d e [Hk _] _ IH]; [reflexivity|].
  cbn [Dict.keys map]. f_equal; [congruence|exact IH].
Qed.

(** Two dictionaries with the same bindings answer a lookup alike. *)
Lemma same_bindings_get (d e : Dict.t value) (k : string) :
  same_bindings d e ->
  match Dict.get k d, Dict.get k e with
  | Some v, Some w => same_object v w
  | None, None => True
  | _, _ => False
  end.
Proof.
  induction 1 as [|[k1 v] [k2 w] d e [Hk Ho] _ IH]; [exact I|].
  cbn [fst snd] in Hk, Ho. subst k2. cbn [Dict.get].
  destruct (String.eqb k1 k); [exact Ho|exact IH].
Qed.

Lemma retext_keys (id : nat) (text : fallible string) (d : Dict.t value) :
  Dict.keys (retext id text d) = Dict.keys d.
Proof. apply same_bindings_keys, same_bindings_retext. Qed.

Lemma retext_get (id : nat) (text : fallible string) (d : Dict.t value) (k : string) :
  Dict.get k (retext id text d) = option_map (retext_value id text) (Dict.get k d).
Proof.
  induction d as [|[k' v] d IH]; [reflexivity|].
  cbn [retext map fst snd Dict.get]. destruct (String.eqb k' k); [reflexivity|exact IH].
Qed.

(** ** The sandbox *)

Lemma counters_le_refl (st : REPLState) : counters_le st st.
Proof. unfold counters_le; lia. Qed.

Lemma counters_le_trans (a b c : REPLState) :
  counters_le a b -> counters_le b c -> counters_le a c.
Proof. unfold counters_le; lia. Qed.

Lemma later_refl (st : REPLState) : later st st.
Proof.
  repeat split; try apply Z.le_refl; trivial. apply incl_refl.
Qed.

Lemma later_trans (a b c : REPLState) : later a b -> later b c -> later a c.
Proof.
  intros (Hc1 & Hn1 & Hk1 & Hd1) (Hc2 & Hn2 & Hk2 & Hd2).
  split; [congruence|]. split; [eapply counters_le_trans; eassumption|].
  split; [eapply incl_tran; eassumption|auto].
Qed.

Lemma word_count_nonneg (s : string) : (0 <= Text.word_count s)%Z.
Proof. unfold Text.word_count. lia. Qed.

Lemma injected_NoDup (ctx : string) : NoDup (Dict.keys (injected ctx)).
Proof.
  cbn [injected Dict.keys map fst].
  repeat (constructor; [cbn [In]; intuition discriminate|]). constructor.
Qed.

Lemma last_cons {A : Type} (l : list A) (a d : A) : last (a :: l) d = last l a.
Proof.
  revert a d; induction l as [|b l IH]; intros a d; [reflexivity|].
  change (last (a :: b :: l) d) with (last (b :: l) d). now rewrite !IH.
Qed.

Section SimulatorFacts.
Variable llm : string -> bool -> string.
Variable py : string -> code.

(** A sub-call adds one to the count of sub-calls; when its prompt can
    be split it adds the number of parts plus 50 to the sub-call tokens,
    otherwise it raises and charges nothing.  It touches nothing else. *)
Lemma llm_query_state (p : prompt_arg) (st : REPLState) :
  let st' := snd (llm_query llm p st) in
  sub_call_count st' = (sub_call_count st + 1)%Z
  /\ total_tokens_sub st' =
     match p with
     | PStr s => (total_tokens_sub st + (Text.word_count s + 50))%Z
     | PNoSplit _ => total_tokens_sub st
     | PSplit words _ => (total_tokens_sub st + (Z.of_nat words + 50))%Z
     end
  /\ total_tokens_root st' = total_tokens_root st
  /\ variables st' = variables st
  /\ context st' = context st
  /\ output_buffer st' = output_buffer st.
Proof. destruct p; cbn; repeat split. Qed.

Lemma llm_query_counters (p : prompt_arg) (st : REPLState) :
  counters_le st (snd (llm_query llm p st)).
Proof.
  destruct (llm_query_state p st) as (H1 & H2 & H3 & _).
  unfold counters_le.
  destruct p as [s|msg|words msg]; [pose proof (word_count_nonneg s)| |]; lia.
Qed.

(** A block changes the counters through its sub-calls only; it leaves
    [variables] bound to the same objects, which it may have changed in
    place; it keeps the keys of its globals distinct. *)
Lemma perform_facts (c : code) :
  forall g out st o g' out' st',
    perform llm c g out st = (o, g', out', st') ->
    (NoDup (Dict.keys g) -> NoDup (Dict.keys g'))
    /\ same_bindings (variables st) (variables st')
    /\ context st' = context st
    /\ output_buffer st' = output_buffer st
    /\ counters_le st st'.
Proof.
  induction c as [|msg|msg| |k IH|name v k IH|name k IH|id text k IH|text k IH|p k IH];
    intros g out st o g' out' st'; cbn [perform]; intros E.
  - injection E as <- <- <- <-. auto using counters_le_refl, same_bindings_refl.
  - injection E as <- <- <- <-. auto using counters_le_refl, same_bindings_refl.
  - injection E as <- <- <- <-. auto using counters_le_refl, same_bindings_refl.
  - injection E as <- <- <- <-. auto using counters_le_refl, same_bindings_refl.
  - exact (IH _ _ _ _ _ _ _ _ E).
  - destruct (IH _ _ _ _ _ _ _ E) as (Hd & Hrest).
    split; [|exact Hrest]. intros H. now apply Hd, NoDup_set.
  - destruct (IH _ _ _ _ _ _ _ E) as (Hd & Hrest).
    split; [|exact Hrest]. intros H. now apply Hd, NoDup_del.
  - destruct (IH _ _ _ _ _ _ _ E) as (Hd & Hv & Hc & Hb & Hle).
    cbn in Hv, Hc, Hb. repeat split; trivial.
    + intros H. apply Hd. now rewrite retext_keys.
    + eapply same_bindings_trans; [apply same_bindings_retext|exact Hv].
    + apply Hle.
    + apply Hle.
    + apply Hle.
  - exact (IH _ _ _ _ _ _ _ E).
  - destruct (llm_query llm p st) as [r st1] eqn:Q.
    pose proof (llm_query_state p st) as (_ & _ & _ & Hv & Hc & Hb).
    pose proof (llm_query_counters p st) as Hle.
    rewrite Q in Hv, Hc, Hb, Hle. cbn [snd] in *.
    destruct (IH _ _ _ _ _ _ _ _ E) as (Hd & Hv' & Hc' & Hb' & Hle').
    rewrite Hv in Hv'.
    repeat split; try congruence; try exact Hd; try exact Hv'.
    all: eapply counters_le_trans; eassumption.
Qed.

(** A block that settles ends at its end or with an [Exception]. *)
Lemma perform_settles (c : code) :
  settles c ->
  forall g out st,
    match perform llm c g out st with
    | (Finished, _, _, _) | (Raised _, _, _, _) => True
    | _ => False
    end.
Proof.
  induction c as [|msg|msg| |k IH|name v k IH|name k IH|id text k IH|text k IH|p k IH];
    cbn [settles perform]; intros H g out st; trivial; try contradiction.
  - now apply IH.
  - now apply IH.
  - now apply IH.
  - now apply IH.
  - now apply IH.
  - destruct (llm_query llm p st) as [r st1]. now apply IH.
Qed.

Lemma exec_globals_NoDup (st : REPLState) :
  NoDup (Dict.keys (exec_globals_of st)).
Proof. apply update_NoDup, injected_NoDup. Qed.

Lemma sandbox_facts (src : string) (st : REPLState) o g out st' :
  sandbox llm py src st = (o, g, out, st') ->
  NoDup (Dict.keys g)
  /\ same_bindings (variables st) (variables st')
  /\ context st' = context st
  /\ output_buffer st' = output_buffer st
  /\ counters_le st st'.
Proof.
  unfold sandbox, exec. intros E.
  apply perform_facts in E as (Hd & Hrest). split; [|exact Hrest].
  apply Hd. destruct (Dict.get "__builtins__" (exec_globals_of st)).
  - apply exec_globals_NoDup.
  - apply NoDup_set, exec_globals_NoDup.
Qed.

Lemma sandbox_settles (src : string) (st : REPLState) :
  settles (py src) ->
  match sandbox llm py src st with
  | (Finished, _, _, _) | (Raised _, _, _, _) => True
  | _ => False
  end.
Proof. intros H. unfold sandbox, exec. now apply perform_settles. Qed.

(** [execute_repl_code] when the block runs off its end. *)
Lemma execute_finished (src : string) (st : REPLState) g out st1 :
  sandbox llm py src st = (Finished, g, out, st1) ->
  execute_repl_code llm py src st =
  (inl out, set_output_buffer out
              (set_variables (save_new_variables g (variables st1)) st1)).
Proof. intros E. unfold execute_repl_code. now rewrite E. Qed.

(** [execute_repl_code] when the block raises an [Exception]. *)
Lemma execute_raised (src : string) (st : REPLState) msg g out st1 :
  sandbox llm py src st = (Raised msg, g, out, st1) ->
  execute_repl_code llm py src st =
  (inl (out ++ "Error: " ++ msg),
   set_output_buffer (out ++ "Error: " ++ msg) st1).
Proof. intros E. unfold execute_repl_code. now rewrite E. Qed.

(** [execute_repl_code] when the block raises what [except Exception]
    does not catch. *)
Lemma execute_exited (src : string) (st : REPLState) msg g out st1 :
  sandbox llm py src st = (Exited msg, g, out, st1) ->
  execute_repl_code llm py src st = (inr (Propagates msg), st1).
Proof. intros E. unfold execute_repl_code. now rewrite E. Qed.

(** [execute_repl_code] when the block runs for ever. *)
Lemma execute_hung (src : string) (st : REPLState) g out st1 :
  sandbox llm py src st = (Hung, g, out, st1) ->
  execute_repl_code llm py src st = (inr NeverReturns, st1).
Proof. intros E. unfold execute_repl_code. now rewrite E. Qed.

(** [execute_repl_code] returns for a block that settles. *)
Lemma execute_settles (src : string) (st : REPLState) :
  settles (py src) ->
  exists out, fst (execute_repl_code llm py src st) = inl out.
Proof.
  intros H. pose proof (sandbox_settles src st H) as Hs.
  unfold execute_repl_code.
  destruct (sandbox llm py src st) as [[[[|msg|msg|] g] out] st1];
    try contradiction; cbn; eauto.
Qed.

Lemma execute_later (src : string) (st : REPLState) :
  later st (snd (execute_repl_code llm py src st)).
Proof.
  destruct (sandbox llm py src st) as [[[o g] out] st1] eqn:E.
  pose proof (sandbox_facts _ _ _ _ _ _ E) as (Hg & Hv & Hc & Hb & Hle).
  pose proof (same_bindings_keys _ _ Hv) as Hk.
  destruct o as [|msg|msg|].
  - rewrite (execute_finished _ _ _ _ _ E). cbn [snd].
    unfold later, keys_kept, counters_le in *.
    cbn [variables context sub_call_count total_tokens_root total_tokens_sub
         set_output_buffer set_variables].
    rewrite <- Hk. repeat split; try apply Hle; trivial.
    + apply merge_keys_incl.
    + apply merge_NoDup.
  - rewrite (execute_raised _ _ _ _ _ _ E). cbn [snd].
    unfold later, keys_kept, counters_le in *.
    cbn [variables context sub_call_count total_tokens_root total_tokens_sub
         set_output_buffer set_variables].
    rewrite Hk. repeat split; try apply Hle; trivial. apply incl_refl.
  - rewrite (execute_exited _ _ _ _ _ _ E). cbn [snd].
    unfold later, keys_kept. rewrite Hk.
    repeat split; try apply Hle; trivial. apply incl_refl.
  - rewrite (execute_hung _ _ _ _ _ E). cbn [snd].
    unfold later, keys_kept. rewrite Hk.
    repeat split; try apply Hle; trivial. apply incl_refl.
Qed.

(** When [execute_repl_code] returns, the output buffer holds what it
    returns; when it does not, the buffer is as it was. *)
Lemma execute_output (src : string) (st : REPLState) :
  output_buffer (snd (execute_repl_code llm py src st)) =
  match fst (execute_repl_code llm py src st) with
  | inl out => out
  | inr _ => output_buffer st
  end.
Proof.
  destruct (sandbox llm py src st) as [[[o g] out] st1] eqn:E.
  pose proof (sandbox_facts _ _ _ _ _ _ E) as (_ & _ & _ & Hb & _).
  unfold execute_repl_code. rewrite E.
  destruct o as [|msg|msg|]; cbn; trivial.
Qed.

Lemma execute_blocks_later (blocks : list string) (st : REPLState) :
  later st (snd (execute_blocks llm py blocks st)).
Proof.
  revert st.
  induction blocks as [|src blocks IH]; intros st; cbn [execute_blocks].
  - apply later_refl.
  - pose proof (execute_later src st) as H.
    destruct (execute_repl_code llm py src st) as [[out|how] st1]; cbn [snd] in *.
    + eapply later_trans; [exact H|apply IH].
    + exact H.
Qed.

(** Blocks that settle are all executed. *)
Lemma execute_blocks_settle (blocks : list string) (st : REPLState) :
  Forall (fun src => settles (py src)) blocks ->
  fst (execute_blocks llm py blocks st) = None.
Proof.
  intros H. revert st. induction H as [|src blocks Hs _ IH]; intros st;
    cbn [execute_blocks]; [reflexivity|].
  destruct (execute_settles src st Hs) as [out Ho].
  destruct (execute_repl_code llm py src st) as [[out'|how] st1];
    cbn [fst] in Ho; [apply IH|discriminate].
Qed.

(** ** The loop *)

Lemma set_root_later (n : Z) (st : REPLState) :
  (0 <= n)%Z -> later st (set_total_tokens_root (total_tokens_root st + n) st).
Proof.
  intros Hn. unfold later, counters_le, keys_kept. cbn.
  repeat split; trivial; try lia. apply incl_refl.
Qed.

Lemma iteration_body_cases (query p : string) (st : REPLState) :
  let st1 := set_total_tokens_root
               (total_tokens_root st + (Text.word_count p + 100)) st in
  match iteration_body llm py query p st with
  | Break final st' =>
      exists x, check_final_answer (llm p false) st1 = Ok x
        /\ truthy x = Some final /\ st' = st1
  | Continue following st' =>
      exists x, check_final_answer (llm p false) st1 = Ok x
        /\ truthy x = None
        /\ execute_blocks llm py (extract_code_blocks (llm p false)) st1
           = (None, st')
        /\ following = next_prompt (output_buffer st') query
  | Stop how st' =>
      (exists msg, check_final_answer (llm p false) st1 = Err msg
         /\ how = Propagates msg /\ st' = st1)
      \/ (exists x, check_final_answer (llm p false) st1 = Ok x
            /\ truthy x = None
            /\ execute_blocks llm py (extract_code_blocks (llm p false)) st1
               = (Some how, st'))
  end.
Proof.
  cbv zeta. unfold iteration_body.
  destruct (check_final_answer _ _) as [x|msg]; [|left; eauto].
  destruct (truthy x) eqn:T; [eauto|].
  destruct (execute_blocks _ _ _ _) as [[how|] st']; [right|]; eauto.
Qed.

Lemma iteration_body_later (query p : string) (st : REPLState) :
  match iteration_body llm py query p st with
  | Break _ st' => later st st'
  | Continue _ st' => later st st'
  | Stop _ st' => later st st'
  end.
Proof.
  pose proof (iteration_body_cases query p st) as H. cbv zeta in H.
  pose proof (word_count_nonneg p) as Hw.
  pose proof (execute_blocks_later (extract_code_blocks (llm p false))
                (set_total_tokens_root
                   (total_tokens_root st + (Text.word_count p + 100)) st)) as Hb.
  pose proof (set_root_later (Text.word_count p + 100) st ltac:(lia)) as Hr.
  destruct (iteration_body llm py query p st) as [f st'|nx st'|how st'].
  - destruct H as (x & _ & _ & ->). exact Hr.
  - destruct H as (x & _ & _ & E & _). rewrite E in Hb.
    eapply later_trans; [exact Hr|exact Hb].
  - destruct H as [(msg & _ & _ & ->)|(x & _ & _ & E)]; [exact Hr|].
    rewrite E in Hb. eapply later_trans; [exact Hr|exact Hb].
Qed.

Lemma loop_facts (query : string) (remaining : nat) :
  forall it p st n ans st' ps how,
    loop llm py query remaining it p st = (n, ans, st', ps, how) ->
    StronglySorted later (st :: map after ps)
    /\ st' = last (map after ps) st
    /\ n = (it + Z.of_nat (List.length ps))%Z
    /\ (List.length ps <= remaining)%nat
    /\ Forall (pass_of_body llm py query) ps
    /\ map before ps = firstn (List.length ps) (st :: map after ps)
    /\ map prompt ps =
       firstn (List.length ps)
         (p :: map (fun x => next_prompt (output_buffer (after x)) query) ps).
Proof.
  induction remaining as [|remaining IH]; intros it p st n ans st' ps how;
    cbn [loop].
  - intros E; injection E as <- <- <- <- <-. cbn.
    repeat split; try lia; repeat constructor.
  - pose proof (iteration_body_later query p st) as Hl.
    destruct (iteration_body llm py query p st) as [f st1|nx st1|h st1] eqn:B.
    + intros E; injection E as <- <- <- <- <-.
      cbn [map after before prompt List.length firstn last].
      split; [|split; [|split; [|split; [|split; [|split]]]]];
        try reflexivity; try lia.
      * constructor; [constructor; constructor|]. constructor; [exact Hl|constructor].
      * constructor; [|constructor]. split; [reflexivity|]. cbn. now rewrite B.
    + pose proof (iteration_body_cases query p st) as Hc. cbv zeta in Hc.
      rewrite B in Hc. destruct Hc as (x & _ & _ & _ & ->).
      destruct (loop llm py query remaining (it + 1)
                  (next_prompt (output_buffer st1) query) st1)
        as [[[[n1 ans1] st2] ps1] how1] eqn:L.
      intros E; injection E as <- <- <- <- <-.
      destruct (IH _ _ _ _ _ _ _ _ L) as (Hs & Hlast & Hn & Hlen & Hall & Hb & Hp).
      cbn [map after before prompt List.length firstn].
      split; [|split; [|split; [|split; [|split; [|split]]]]].
      * constructor; [exact Hs|]. constructor; [exact Hl|].
        inversion Hs as [|? ? _ Hf]; subst.
        eapply Forall_impl; [|exact Hf]. intros a Ha.
        eapply later_trans; eassumption.
      * rewrite Hlast. symmetry. apply last_cons.
      * lia.
      * lia.
      * constructor; [|exact Hall]. split; [reflexivity|]. cbn. now rewrite B.
      * now rewrite Hb.
      * now rewrite Hp.
    + intros E; injection E as <- <- <- <- <-.
      cbn [map after before prompt List.length firstn last].
      split; [|split; [|split; [|split; [|split; [|split]]]]];
        try reflexivity; try lia.
      * constructor; [constructor; constructor|]. constructor; [exact Hl|constructor].
      * constructor; [|constructor]. split; [reflexivity|]. cbn. now rewrite B.
Qed.

End SimulatorFacts.

Lemma StronglySorted_weaken {A : Type} (R R' : A -> A -> Prop) (l : list A) :
  (forall a b, R a b -> R' a b) -> StronglySorted R l -> StronglySorted R' l.
Proof.
  intros HR. induction 1 as [|a l Hs IH Hf]; constructor; [exact IH|].
  eapply Forall_impl; [|exact Hf]. intros b. apply HR.
Qed.

Lemma check_final_answer_None (r : string) (st : REPLState) :
  ~ has_literal_marker r -> ~ has_variable_marker r ->
  check_final_answer r st = Ok None.
Proof.
  intros Hl Hv. unfold check_final_answer.
  destruct (Re.search Re.match_FINAL r) eqn:E1.
  - elim Hl. apply search_FINAL_iff. congruence.
  - destruct (Re.search Re.match_FINAL_VAR r) eqn:E2; [|reflexivity].
    elim Hv. apply search_FINAL_VAR_iff. congruence.
Qed.

Lemma check_final_answer_variable (r : string) (st : REPLState) (name : string) :
  ~ has_literal_marker r ->
  Re.search Re.match_FINAL_VAR r = Some name ->
  check_final_answer r st =
  match Dict.get name (variables st) with
  | Some v =>
      match py_str v with
      | Ok text => Ok (Some text)
      | Err msg => Err msg
      end
  | None => Ok (Some ("[Variable " ++ name ++ " not found]"))
  end.
Proof.
  intros Hl E. unfold check_final_answer.
  destruct (Re.search Re.match_FINAL r) eqn:E1.
  - elim Hl. apply search_FINAL_iff. congruence.
  - rewrite E. now destruct (Dict.get name (variables st)).
Qed.

Lemma save_get (g vars : Dict.t value) (k : string) :
  NoDup (Dict.keys g) -> is_reserved k = false ->
  Dict.get k (save_new_variables g vars) =
  match Dict.get k g with
  | Some v => Some v
  | None => Dict.get k vars
  end.
Proof.
  intros Hg Hk. unfold save_new_variables.
  destruct (Dict.get k g) as [v|] eqn:E.
  - now apply merge_get_bound.
  - apply merge_get_absent. now apply get_None_keys.
Qed.

Lemma save_get_reserved (g vars : Dict.t value) (k : string) :
  is_reserved k = true ->
  Dict.get k (save_new_variables g vars) = Dict.get k vars.
Proof. apply merge_get_skipped. Qed.

Lemma save_keys (g vars : Dict.t value) (k : string) :
  In k (Dict.keys (save_new_variables g vars)) ->
  In k (Dict.keys vars) \/ (In k (Dict.keys g) /\ is_reserved k = false).
Proof.
  unfold save_new_variables. revert vars.
  induction g as [|[k' v'] g IH]; intros vars; cbn [fold_left fst snd].
  - now left.
  - intros H. destruct (IH _ H) as [Hv|[Hg Hr]].
    + destruct (is_reserved k') eqn:R; [now left|].
      destruct (keys_set k' v' vars) as [E|[_ E]]; rewrite E in Hv; [now left|].
      apply in_app_or in Hv as [Hv|[<-|[]]]; [now left|].
      right. split; [now left|exact R].
    + right. split; [now right|exact Hr].
Qed.

Section RunFacts.
Variable llm : string -> bool -> string.
Variable py : string -> code.

Lemma run_facts (max_iterations : Z) (ctx query : string) :
  let r := run llm py max_iterations ctx query in
  StronglySorted later (states_of ctx r)
  /\ final_state r = last (map after (passes r)) (new_state ctx)
  /\ iterations (result r) = Z.of_nat (List.length (passes r))
  /\ (List.length (passes r) <= Z.to_nat max_iterations)%nat
  /\ Forall (pass_of_body llm py query) (passes r)
  /\ map before (passes r) =
     firstn (List.length (passes r)) (states_of ctx r)
  /\ map prompt (passes r) =
     firstn (List.length (passes r))
       (system_prompt (String.length ctx) query
        :: map (fun x => next_prompt (output_buffer (after x)) query) (passes r)).
Proof.
  cbv zeta. unfold run, states_of.
  destruct (loop llm py query (Z.to_nat max_iterations) 0
              (system_prompt (String.length ctx) query) (new_state ctx))
    as [[[[n ans] st] ps] how] eqn:L.
  cbn [passes final_state result iterations].
  apply loop_facts in L. intuition.
Qed.

(** Without a marker in any response, and with blocks that settle, the
    loop uses its whole budget and returns. *)
Lemma loop_without_marker (query : string) (remaining : nat) :
  (forall p, ~ has_literal_marker (llm p false)
             /\ ~ has_variable_marker (llm p false)) ->
  blocks_settle llm py ->
  forall it p st n ans st' ps how,
    loop llm py query remaining it p st = (n, ans, st', ps, how) ->
    n = (it + Z.of_nat remaining)%Z /\ ans = None
    /\ List.length ps = remaining /\ how = None.
Proof.
  intros Hno Hset. induction remaining as [|remaining IH];
    intros it p st n ans st' ps how; cbn [loop].
  - intros E; injection E as <- <- <- <- <-. cbn. repeat split; lia.
  - pose proof (iteration_body_cases llm py query p st) as Hc. cbv zeta in Hc.
    destruct (Hno p) as [Hl Hv].
    rewrite (check_final_answer_None _ _ Hl Hv) in Hc.
    destruct (iteration_body llm py query p st) as [f st1|nx st1|h st1].
    + destruct Hc as (x & Hx & Ht & _). injection Hx as <-. discriminate.
    + destruct (loop llm py query remaining (it + 1) nx st1)
        as [[[[n1 ans1] st2] ps1] how1] eqn:L.
      intros E; injection E as <- <- <- <- <-.
      destruct (IH _ _ _ _ _ _ _ _ L) as (-> & -> & <- & ->).
      cbn [List.length]. repeat split; lia.
    + destruct Hc as [(msg & Hx & _)|(x & _ & _ & Hb)]; [discriminate|].
      pose proof (execute_blocks_settle llm py _
                    (set_total_tokens_root
                       (total_tokens_root st + (Text.word_count p + 100)) st)
                    (Hset p)) as Hn.
      rewrite Hb in Hn. discriminate.
Qed.

(** Without a marker in any response the loop announces no answer; it
    makes all its passes unless a pass does not return, and then a block
    of its last pass is what did not return. *)
Lemma loop_stops_without_marker (query : string) (remaining : nat) :
  (forall p, ~ has_literal_marker (llm p false)
             /\ ~ has_variable_marker (llm p false)) ->
  forall it p st n ans st' ps how,
    loop llm py query remaining it p st = (n, ans, st', ps, how) ->
    ans = None
    /\ (how = None -> List.length ps = remaining)
    /\ (forall h, how = Some h ->
          exists x, last (map Some ps) None = Some x
            /\ fst (execute_blocks llm py (extract_code_blocks (response x))
                      (set_total_tokens_root
                         (total_tokens_root (before x)
                          + (Text.word_count (prompt x) + 100)) (before x)))
               = Some h).
Proof.
  intros Hno. induction remaining as [|remaining IH];
    intros it p st n ans st' ps how; cbn [loop].
  - intros E; injection E as <- <- <- <- <-. repeat split; discriminate.
  - pose proof (iteration_body_cases llm py query p st) as Hc. cbv zeta in Hc.
    destruct (Hno p) as [Hl Hv].
    rewrite (check_final_answer_None _ _ Hl Hv) in Hc.
    destruct (iteration_body llm py query p st) as [f st1|nx st1|h st1].
    + destruct Hc as (x & Hx & Ht & _). injection Hx as <-. discriminate.
    + destruct (loop llm py query remaining (it + 1) nx st1)
        as [[[[n1 ans1] st2] ps1] how1] eqn:L.
      intros E; injection E as <- <- <- <- <-.
      destruct (IH _ _ _ _ _ _ _ _ L) as (-> & Hfull & Hlast).
      split; [reflexivity|]. split.
      * intros H. cbn [List.length]. now rewrite Hfull.
      * intros h Hh. destruct (Hlast h Hh) as (x & Hx & Hb).
        exists x. split; [|exact Hb].
        cbn [map]. rewrite last_cons.
        destruct ps1 as [|y ps1]; [discriminate Hx|].
        cbn [map] in *. now rewrite last_cons in *.
    + intros E; injection E as <- <- <- <- <-.
      destruct Hc as [(msg & Hx & _)|(x & _ & _ & Hb)]; [discriminate|].
      split; [reflexivity|]. split; [discriminate|].
      intros h' Hh; injection Hh as <-. eexists. split; [reflexivity|].
      cbn [response before prompt]. now rewrite Hb.
Qed.

End RunFacts.

(** ** The sample blocks *)

Lemma settles_print_context : settles (sample_python (line "print(context)")).
Proof.
  cbn. intros g. destruct (Dict.get "context" g) as [v|]; [|exact I].
  destruct (py_str v); exact I.
Qed.

(** ** Blocks in sequence, and what a prompt holds *)

Lemma occurs_inside (t a b c : string) :
  Text.occurs t b = true -> Text.occurs t (a ++ b ++ c) = true.
Proof.
  intros H. apply occurs_elim in H as (x & y & ->).
  replace (a ++ (x ++ t ++ y) ++ c) with ((a ++ x) ++ t ++ (y ++ c))
    by (now rewrite !append_assoc).
  apply occurs_intro.
Qed.

Lemma occurs_app_l (x a b : string) :
  Text.occurs x a = true -> Text.occurs x (a ++ b) = true.
Proof.
  intros H. apply occurs_elim in H as (u & v & ->).
  rewrite !append_assoc. apply occurs_intro.
Qed.

Lemma occurs_app_r (x a b : string) :
  Text.occurs x b = true -> Text.occurs x (a ++ b) = true.
Proof.
  intros H. apply occurs_elim in H as (u & v & ->).
  rewrite <- append_assoc. apply occurs_intro.
Qed.

(** The next prompt holds the output buffer verbatim. *)
Lemma next_prompt_holds_output (out query t : string) :
  Text.occurs t out = true -> Text.occurs t (next_prompt out query) = true.
Proof. intros H. unfold next_prompt. now apply occurs_inside. Qed.

Section BlockFacts.
Variable llm : string -> bool -> string.
Variable py : string -> code.

Lemma execute_blocks_app (bs cs : list string) (st : REPLState) :
  execute_blocks llm py (bs ++ cs)%list st =
  match execute_blocks llm py bs st with
  | (None, st1) => execute_blocks llm py cs st1
  | (Some how, st1) => (Some how, st1)
  end.
Proof.
  revert st. induction bs as [|src bs IH]; intros st; [reflexivity|].
  cbn [app execute_blocks].
  destruct (execute_repl_code llm py src st) as [[out|how] st1]; [apply IH|reflexivity].
Qed.

(** The pass that finds no answer: what it does is what its blocks do. *)
Lemma iteration_body_blocks (query p : string) (st : REPLState) (x : option string) :
  let st1 := set_total_tokens_root
               (total_tokens_root st + (Text.word_count p + 100)) st in
  check_final_answer (llm p false) st1 = Ok x ->
  truthy x = None ->
  iteration_body llm py query p st =
  match execute_blocks llm py (extract_code_blocks (llm p false)) st1 with
  | (None, st2) => Continue (next_prompt (output_buffer st2) query) st2
  | (Some how, st2) => Stop how st2
  end.
Proof.
  cbv zeta. intros Hc Ht. unfold iteration_body. rewrite Hc, Ht.
  now destruct (execute_blocks _ _ _ _) as [[how|] st2].
Qed.

(** What the last block of a pass printed is in the prompt that follows
    the pass. *)
Lemma last_block_output_in_prompt (query p : string) (st : REPLState)
  (bs : list string) (src : string) (st0 : REPLState) (o : outcome)
  (g : Dict.t value) (printed : string) (st1 : REPLState)
  (following : string) (st' : REPLState) :
  iteration_body llm py query p st = Continue following st' ->
  extract_code_blocks (llm p false) = (bs ++ [src])%list ->
  execute_blocks llm py bs
    (set_total_tokens_root
       (total_tokens_root st + (Text.word_count p + 100)) st) = (None, st0) ->
  sandbox llm py src st0 = (o, g, printed, st1) ->
  following = next_prompt (output_buffer st') query
  /\ output_buffer st' =
     match o with
     | Raised msg => printed ++ "Error: " ++ msg
     | _ => printed
     end
  /\ forall t, Text.occurs t printed = true -> Text.occurs t following = true.
Proof.
  intros Hb He Hbs Hs.
  pose proof (iteration_body_cases llm py query p st) as Hc. cbv zeta in Hc.
  rewrite Hb in Hc. destruct Hc as (x & _ & _ & Hx & ->).
  rewrite He, execute_blocks_app, Hbs in Hx. cbn [execute_blocks] in Hx.
  assert (Hout : output_buffer st' =
                 match o with
                 | Raised msg => printed ++ "Error: " ++ msg
                 | _ => printed
                 end).
  { destruct o as [|msg|msg|].
    - rewrite (execute_finished _ _ _ _ _ _ _ Hs) in Hx. now injection Hx as <-.
    - rewrite (execute_raised _ _ _ _ _ _ _ _ Hs) in Hx. now injection Hx as <-.
    - rewrite (execute_exited _ _ _ _ _ _ _ _ Hs) in Hx. discriminate Hx.
    - rewrite (execute_hung _ _ _ _ _ _ _ Hs) in Hx. discriminate Hx. }
  split; [reflexivity|]. split; [exact Hout|].
  intros t Ht. apply next_prompt_holds_output. rewrite Hout.
  destruct o; trivial. now apply occurs_app_l.
Qed.

End BlockFacts.

(** * The claims *)

(** A concrete response without marker: the pattern is not found. *)
Ltac no_literal_marker :=
  let X := fresh in intros X; apply search_FINAL_iff in X; now apply X.
Ltac no_variable_marker :=
  let X := fresh in intros X; apply search_FINAL_VAR_iff in X; now apply X.

(** ** The termination detector *)

(** C4. A response that holds both a literal final-answer marker and a
    variable-reference marker is answered with the text wrapped by the
    literal marker: the text between the first [FINAL(] of the response
    and the first closing parenthesis after it, whatever [variables]
    holds. *)
Theorem literal_marker_has_priority (r : string) (st : REPLState) :
  has_literal_marker r ->
  has_variable_marker r ->
  exists pre text post,
    r = pre ++ "FINAL(" ++ text ++ ")" ++ post
    /\ Text.occurs "FINAL(" pre = false
    /\ Text.has_char ")" text = false
    /\ check_final_answer r st = Ok (Some text).
Proof.
  intros Hl _. apply search_FINAL_iff in Hl.
  destruct (Re.search Re.match_FINAL r) as [text|] eqn:E; [|congruence].
  destruct (search_FINAL_first _ _ E) as (pre & post & Hr & Hpre & Htext).
  exists pre, text, post. repeat split; trivial.
  unfold check_final_answer. now rewrite E.
Qed.

Lemma literal_marker_has_priority_witness :
  exists pre text post,
    "FINAL_VAR(x) and FINAL(42)" = pre ++ "FINAL(" ++ text ++ ")" ++ post
    /\ Text.occurs "FINAL(" pre = false
    /\ Text.has_char ")" text = false
    /\ check_final_answer "FINAL_VAR(x) and FINAL(42)"
         (set_variables [("x", VInt 5)] (new_state "data")) = Ok (Some text).
Proof.
  apply literal_marker_has_priority.
  - exists "FINAL_VAR(x) and ", "42", "". reflexivity.
  - exists "", "x", " and FINAL(42)".
    split; [reflexivity|]. split; [discriminate|reflexivity].
Defined.

Example both_markers :
  check_final_answer "FINAL_VAR(x) and FINAL(42)"
    (set_variables [("x", VInt 5)] (new_state "data")) = Ok (Some "42").
Proof. reflexivity. Qed.

(** The literal marker wins even over a variable whose conversion to text
    would raise: the variable is not looked at. *)
Example both_markers_no_conversion :
  check_final_answer "FINAL_VAR(x) and FINAL(42)"
    (set_variables [("x", VShared 1 (Err "no text"))] (new_state "data"))
  = Ok (Some "42").
Proof. reflexivity. Qed.

(** C5, as worded, fails: for a name bound to an object whose conversion
    to text raises, the detector returns no text; the exception leaves
    it. *)
Lemma variable_resolution_counterexample :
  ~ resolves_variable "FINAL_VAR(x)"
      (snd (execute_repl_code (agent_block class_block) sample_python
              class_block (new_state "Revenue: $45.2M"))).
Proof.
  intros H.
  destruct (H "x" (VShared 1 (Err "no text"))) as [text Ht].
  - no_literal_marker.
  - reflexivity.
  - reflexivity.
  - discriminate Ht.
Qed.

(** The same for an integer of more digits than [str] accepts. *)
Example variable_resolution_big_integer :
  check_final_answer "FINAL_VAR(x)"
    (set_variables [("x", VInt (10 ^ 5000))] (new_state "data"))
  = Err int_limit_message.
Proof. vm_compute. reflexivity. Qed.

(** The run of such an agent does not return: the exception of [str]
    leaves [check_final_answer] and [run] in the second pass. *)
Example variable_resolution_ends_run :
  let r := run (agent_two (fenced class_block) "FINAL_VAR(x)") sample_python 5
             "Revenue: $45.2M" "What is revenue?" in
  stopped r = Some (Propagates "no text")
  /\ answer r = None
  /\ List.length (passes r) = 2%nat.
Proof. vm_compute. repeat split. Qed.

(** C5, amended.  A response with a variable-reference marker and no
    literal marker is answered from [variables], under the name of the
    first such marker: when the name is a key, with [str] of its value,
    that is with its text when [str] returns and with the exception of
    [str] when it raises; when the name is no key, with a placeholder
    that names it.  [str] raises only for an integer of more than 4300
    digits and for an object whose own conversion raises, and nothing
    catches what it raises: the pass, and the run, end with it. *)
Theorem variable_marker_resolution (r : string) (st : REPLState) (name : string) :
  ~ has_literal_marker r ->
  Re.search Re.match_FINAL_VAR r = Some name ->
  (exists pre post, r = pre ++ "FINAL_VAR(" ++ name ++ ")" ++ post /\ identifier name)
  /\ check_final_answer r st =
     match Dict.get name (variables st) with
     | Some v =>
         match py_str v with
         | Ok text => Ok (Some text)
         | Err msg => Err msg
         end
     | None => Ok (Some ("[Variable " ++ name ++ " not found]"))
     end
  /\ (forall v msg,
        py_str v = Err msg ->
        (exists n, v = VInt n
           /\ (int_max_str_digits < String.length (Text.of_Z (Z.abs n)))%nat
           /\ msg = int_limit_message)
        \/ (exists id, v = VShared id (Err msg)))
  /\ (forall llm py query p v msg,
        llm p false = r ->
        Dict.get name (variables st) = Some v ->
        py_str v = Err msg ->
        iteration_body llm py query p st =
        Stop (Propagates msg)
          (set_total_tokens_root
             (total_tokens_root st + (Text.word_count p + 100)) st)).
Proof.
  intros Hl E. split; [|split; [|split]].
  - apply search_sound in E as (pre & rest & -> & Hm & _).
    apply match_FINAL_VAR_sound in Hm as (post & -> & Hid).
    now exists pre, post.
  - now apply check_final_answer_variable.
  - intros v msg. destruct v as [|b|n|s|text|id text]; cbn [py_str];
      try discriminate.
    + destruct b; discriminate.
    + destruct (int_max_str_digits <? String.length (Text.of_Z (Z.abs n)))%nat eqn:B;
        [|discriminate].
      intros H; injection H as <-. left. exists n.
      apply Nat.ltb_lt in B. auto.
    + intros ->. right. now exists id.
  - intros llm py query p v msg Hr Hg Hs. unfold iteration_body.
    rewrite Hr, (check_final_answer_variable r _ name Hl E).
    cbn [variables set_total_tokens_root]. now rewrite Hg, Hs.
Qed.

Lemma variable_marker_resolution_witness :
  check_final_answer "Done. FINAL_VAR(answer)"
    (set_variables [("answer", VInt 42)] (new_state "data")) = Ok (Some "42")
  /\ check_final_answer "Done. FINAL_VAR(answer)" (new_state "data")
     = Ok (Some "[Variable answer not found]")
  /\ check_final_answer "Done. FINAL_VAR(answer)"
       (set_variables [("answer", VShared 1 (Err "no text"))] (new_state "data"))
     = Err "no text".
Proof.
  assert (Hl : ~ has_literal_marker "Done. FINAL_VAR(answer)").
  { no_literal_marker. }
  split; [|split].
  - exact (proj1 (proj2 (variable_marker_resolution "Done. FINAL_VAR(answer)"
                    (set_variables [("answer", VInt 42)] (new_state "data"))
                    "answer" Hl eq_refl))).
  - exact (proj1 (proj2 (variable_marker_resolution "Done. FINAL_VAR(answer)"
                    (new_state "data") "answer" Hl eq_refl))).
  - exact (proj1 (proj2 (variable_marker_resolution "Done. FINAL_VAR(answer)"
                    (set_variables [("answer", VShared 1 (Err "no text"))]
                       (new_state "data"))
                    "answer" Hl eq_refl))).
Defined.

(** C9. The answer of the literal branch holds no closing parenthesis: it
    is the text between the first [FINAL(] and the first closing
    parenthesis after it, so a payload with a parenthesis of its own is
    cut there. *)
Theorem literal_answer_stops_at_parenthesis (r : string) (st : REPLState)
  (final : string) :
  has_literal_marker r ->
  check_final_answer r st = Ok (Some final) ->
  Text.has_char ")" final = false
  /\ exists pre post,
       r = pre ++ "FINAL(" ++ final ++ ")" ++ post
       /\ Text.occurs "FINAL(" pre = false.
Proof.
  intros Hl. apply search_FINAL_iff in Hl. unfold check_final_answer.
  destruct (Re.search Re.match_FINAL r) as [text|] eqn:E; [|congruence].
  intros H; injection H as <-.
  destruct (search_FINAL_first _ _ E) as (pre & post & Hr & Hpre & Htext).
  split; [exact Htext|]. now exists pre, post.
Qed.

Lemma literal_answer_stops_at_parenthesis_witness :
  Text.has_char ")" "f(x" = false
  /\ exists pre post,
       "So FINAL(f(x) + 1)" = pre ++ "FINAL(" ++ "f(x" ++ ")" ++ post
       /\ Text.occurs "FINAL(" pre = false.
Proof.
  apply (literal_answer_stops_at_parenthesis "So FINAL(f(x) + 1)" (new_state "data")).
  - exists "So ", "f(x", " + 1)". reflexivity.
  - reflexivity.
Defined.

(** The literal branch always returns: with a literal marker in the
    response the detector raises nothing. *)
Lemma literal_answer_returns (r : string) (st : REPLState) :
  has_literal_marker r -> exists final, check_final_answer r st = Ok (Some final).
Proof.
  intros Hl. apply search_FINAL_iff in Hl. unfold check_final_answer.
  destruct (Re.search Re.match_FINAL r) as [text|]; [eauto|congruence].
Qed.

(** The cut, for any payload: what follows its first closing parenthesis
    is not part of the answer. *)
Lemma literal_answer_cut (pre text rest : string) (st : REPLState) :
  Text.occurs "FINAL(" pre = false ->
  Text.has_char ")" text = false ->
  check_final_answer (pre ++ "FINAL(" ++ text ++ ")" ++ rest) st = Ok (Some text).
Proof.
  intros Hpre Htext. unfold check_final_answer.
  now rewrite search_FINAL_intro.
Qed.

(** ** Counters *)


(** A sub-call whose prompt is no [str] is counted and not charged. *)
Example counted_and_not_charged :
  let st := snd (execute_repl_code (agent_block (line "llm_query(5)"))
                   sample_python (line "llm_query(5)") (new_state "data")) in
  sub_call_count st = 1%Z /\ total_tokens_sub st = 0%Z
  /\ output_buffer st = "Error: 'int' object has no attribute 'split'".
Proof. repeat split. Qed.

(** A sub-call whose prompt is [bytes] is counted and charged, and then
    raises. *)
Example counted_charged_and_raised :
  let src := line ("llm_query(b" ++ quoted "a b" ++ ")") in
  let st := snd (execute_repl_code (agent_block src) sample_python src
                   (new_state "data")) in
  sub_call_count st = 1%Z /\ total_tokens_sub st = 52%Z
  /\ output_buffer st = "Error: a bytes-like object is required, not 'str'".
Proof. repeat split. Qed.

(** ** The budget *)


Example exit_ends_run :
  let r := run (agent_block exit_block) sample_python 3
             "Revenue: $45.2M" "What is revenue?" in
  stopped r = Some (Propagates "3") /\ List.length (passes r) = 1%nat
  /\ iterations (result r) = 1%Z.
Proof. vm_compute. repeat split. Qed.

(** The same for a block that runs for ever. *)
Example endless_block_ends_run :
  let r := run (agent_block (line "while True: pass")) sample_python 3
             "Revenue: $45.2M" "What is revenue?" in
  stopped r = Some NeverReturns /\ List.length (passes r) = 1%nat.
Proof. vm_compute. repeat split. Qed.


Lemma print_agent_has_no_marker (p : string) :
  ~ has_literal_marker (agent_block (line "print(context)") p false)
  /\ ~ has_variable_marker (agent_block (line "print(context)") p false).
Proof.
  split.
  - no_literal_marker.
  - no_variable_marker.
Qed.

Lemma print_agent_settles :
  blocks_settle (agent_block (line "print(context)")) sample_python.
Proof.
  intros p. unfold agent_block.
  replace (extract_code_blocks (fenced (line "print(context)")))
    with [line "print(context)"] by (vm_compute; reflexivity).
  constructor; [|constructor]. apply settles_print_context.
Qed.


(** ** Variables *)

(** C8. A block that runs to its end with a name [k] bound to [v] in its
    globals (such as [x = 5], or later [x = 7]) leaves [variables[k] = v]:
    a new key is added, a present one gets the new value and stays one
    key.  The key is there after any later blocks.  After a later pass
    the name is bound to what that pass bound it to, if it ended with a
    binding of the name, and else to the same object as before: to the
    same value when the value is one that no code can change in place,
    as an integer is.  No pass removes a key, and in a run the keys only
    grow and stay distinct. *)
Theorem variables_accumulate (llm : string -> bool -> string)
  (py : string -> code) (src : string) (st : REPLState)
  (g : Dict.t value) (out : string) (st1 : REPLState) (k : string) (v : value) :
  sandbox llm py src st = (Finished, g, out, st1) ->
  is_reserved k = false ->
  Dict.get k g = Some v ->
  let st' := snd (execute_repl_code llm py src st) in
  Dict.get k (variables st') = Some v
  /\ (NoDup (Dict.keys (variables st)) ->
      NoDup (Dict.keys (variables st'))
      /\ count_occ string_dec (Dict.keys (variables st')) k = 1%nat)
  /\ (forall blocks,
        In k (Dict.keys (variables (snd (execute_blocks llm py blocks st')))))
  /\ (forall src2,
        exists v',
          Dict.get k (variables (snd (execute_repl_code llm py src2 st')))
          = Some v'
          /\ match sandbox llm py src2 st' with
             | (Finished, g2, _, _) =>
                 match Dict.get k g2 with
                 | Some v2 => v' = v2
                 | None => same_object v v' /\ (immutable v -> v' = v)
                 end
             | _ => same_object v v' /\ (immutable v -> v' = v)
             end)
  /\ (forall src2 st2, keys_kept st2 (snd (execute_repl_code llm py src2 st2)))
  /\ (forall max_iterations ctx query,
        let r := run llm py max_iterations ctx query in
        StronglySorted keys_kept (states_of ctx r)
        /\ Forall (fun s => NoDup (Dict.keys (variables s))) (states_of ctx r)).
Proof.
  intros E Hk Hg. cbv zeta.
  pose proof (sandbox_facts _ _ _ _ _ _ _ _ E) as (Hnd & _).
  assert (Hget : Dict.get k (variables (snd (execute_repl_code llm py src st)))
                 = Some v).
  { rewrite (execute_finished _ _ _ _ _ _ _ E). cbn.
    rewrite save_get by assumption. now rewrite Hg. }
  split; [exact Hget|]. split; [|split; [|split; [|split]]].
  - intros Hst.
    assert (Hnd' : NoDup (Dict.keys (variables (snd (execute_repl_code llm py src st))))).
    { now apply (execute_later llm py src st). }
    split; [exact Hnd'|].
    apply NoDup_count_occ'; [exact Hnd'|]. eapply get_Some_keys, Hget.
  - intros blocks.
    apply (execute_blocks_later llm py blocks). eapply get_Some_keys, Hget.
  - intros src2.
    destruct (sandbox llm py src2 (snd (execute_repl_code llm py src st)))
      as [[[o g2] out2] st2] eqn:E2.
    pose proof (sandbox_facts _ _ _ _ _ _ _ _ E2) as (Hnd2 & Hv2 & _).
    pose proof (same_bindings_get _ _ k Hv2) as Hsame. rewrite Hget in Hsame.
    destruct (Dict.get k (variables st2)) as [w|] eqn:Hw; [|contradiction].
    assert (Hkept : same_object v w /\ (immutable v -> w = v)).
    { split; [exact Hsame|]. intros Hi. now apply same_object_immutable. }
    destruct o as [|msg|msg|].
    + rewrite (execute_finished _ _ _ _ _ _ _ E2). cbn [snd variables
        set_output_buffer set_variables].
      rewrite save_get by assumption.
      destruct (Dict.get k g2) as [v2|]; eauto.
    + rewrite (execute_raised _ _ _ _ _ _ _ _ E2). cbn [snd variables
        set_output_buffer]. eauto.
    + rewrite (execute_exited _ _ _ _ _ _ _ _ E2). cbn [snd]. eauto.
    + rewrite (execute_hung _ _ _ _ _ _ _ E2). cbn [snd]. eauto.
  - intros src2 st2. apply (execute_later llm py src2 st2).
  - intros max_iterations ctx query. cbv zeta.
    destruct (run_facts llm py max_iterations ctx query) as (Hs & _).
    split.
    + eapply StronglySorted_weaken; [|exact Hs]. intros a b H. apply H.
    + unfold states_of in *. inversion Hs as [|? ? _ Hf]; subst.
      constructor; [constructor|].
      eapply Forall_impl; [|exact Hf]. intros a Ha. apply Ha. constructor.
Qed.

Lemma variables_accumulate_witness :
  let llm := agent_block (line "x = 7") in
  let st := set_variables [("x", VInt 5)] (new_state "Revenue: $45.2M") in
  let st' := snd (execute_repl_code llm sample_python (line "x = 7") st) in
  Dict.get "x" (variables st') = Some (VInt 7)
  /\ Dict.keys (variables st') = ["x"].
Proof.
  cbv zeta.
  split; [|reflexivity].
  eapply (variables_accumulate (agent_block (line "x = 7")) sample_python
            (line "x = 7")
            (set_variables [("x", VInt 5)] (new_state "Revenue: $45.2M"))).
  - reflexivity.
  - reflexivity.
  - reflexivity.
Defined.

(** The scenario of the specification: [x = 5] in the first pass, [x = 7]
    in the later ones. *)
Example x_is_5_then_7 :
  let r := run (agent_two (fenced (line "x = 5")) (fenced (line "x = 7")))
             sample_python 3 "Revenue: $45.2M" "What is revenue?" in
  map (fun p => variables (after p)) (passes r)
  = [[("x", VInt 5)]; [("x", VInt 7)]; [("x", VInt 7)]]
  /\ variable_names (result r) = ["x"]
  /\ stopped r = None.
Proof. repeat split; reflexivity. Qed.

(** The end-to-end scenario of the specification. *)
Example end_to_end :
  let r := run (agent_two
                  (fenced (line ("answer = " ++ quoted "Revenue is $45.2M")))
                  "FINAL_VAR(answer)")
             sample_python 10 "Revenue: $45.2M" "What is revenue?" in
  iterations (result r) = 2%Z /\ answer r = Some "Revenue is $45.2M"
  /\ stopped r = None.
Proof. repeat split; reflexivity. Qed.

(** C10. After a pass that runs to its end, every name bound in the
    globals of the block is in [variables] with its value, except the six
    names [context], [llm_query], [print], [re], [json], [__builtins__],
    which are never saved, and nothing else is added.  A name saved this
    way (a loop index, an imported module) is in the globals of the next
    block and resolves a later [FINAL_VAR], which is answered with [str]
    of its value. *)
Theorem pass_saves_all_but_reserved (llm : string -> bool -> string)
  (py : string -> code) (src : string) (st : REPLState)
  (g : Dict.t value) (out : string) (st1 : REPLState) :
  sandbox llm py src st = (Finished, g, out, st1) ->
  NoDup (Dict.keys (variables st)) ->
  let st' := snd (execute_repl_code llm py src st) in
  (forall k, is_reserved k = true <->
             In k ["context"; "llm_query"; "print"; "re"; "json"; "__builtins__"])
  /\ (forall k v, is_reserved k = false -> Dict.get k g = Some v ->
        Dict.get k (variables st') = Some v
        /\ Dict.get k (exec_globals_of st') = Some v
        /\ forall r, ~ has_literal_marker r ->
             Re.search Re.match_FINAL_VAR r = Some k ->
             check_final_answer r st' =
             match py_str v with
             | Ok text => Ok (Some text)
             | Err msg => Err msg
             end)
  /\ (forall k, is_reserved k = true ->
        Dict.get k (variables st') = Dict.get k (variables st1)
        /\ match Dict.get k (variables st), Dict.get k (variables st') with
           | Some v, Some w => same_object v w
           | None, None => True
           | _, _ => False
           end)
  /\ (forall k, In k (Dict.keys (variables st')) ->
        In k (Dict.keys (variables st))
        \/ (In k (Dict.keys g) /\ is_reserved k = false)).
Proof.
  intros E Hst. cbv zeta.
  pose proof (sandbox_facts _ _ _ _ _ _ _ _ E) as (Hnd & Hsame & _).
  pose proof (same_bindings_keys _ _ Hsame) as Hkeys.
  rewrite (execute_finished _ _ _ _ _ _ _ E). cbn [snd].
  split; [|split; [|split]].
  - intros k. unfold is_reserved. rewrite existsb_exists. split.
    + intros (x & Hx & Heq). apply String.eqb_eq in Heq. now subst.
    + intros Hin. exists k. split; [exact Hin|apply String.eqb_refl].
  - intros k v Hk Hg.
    assert (Hget : Dict.get k (save_new_variables g (variables st1)) = Some v).
    { rewrite save_get by assumption. now rewrite Hg. }
    split; [exact Hget|]. split.
    + unfold exec_globals_of. cbn. apply update_get_bound; [|exact Hget].
      apply merge_NoDup. now rewrite Hkeys.
    + intros r Hl Hv.
      rewrite (check_final_answer_variable r _ k Hl Hv). cbn.
      now rewrite Hget.
  - intros k Hk. cbn. rewrite (save_get_reserved _ _ _ Hk).
    split; [reflexivity|]. apply same_bindings_get, Hsame.
  - intros k. cbn. rewrite <- Hkeys. apply save_keys.
Qed.

Lemma pass_saves_all_but_reserved_witness :
  let llm := agent_block (line "for i in range(3): pass") in
  let st' := snd (execute_repl_code llm sample_python
                    (line "for i in range(3): pass") (new_state "data")) in
  Dict.get "i" (variables st') = Some (VInt 2)
  /\ Dict.get "i" (exec_globals_of st') = Some (VInt 2)
  /\ check_final_answer "FINAL_VAR(i)" st' = Ok (Some "2")
  /\ Dict.get "context" (variables st') = None.
Proof.
  cbv zeta.
  pose proof (pass_saves_all_but_reserved
                (agent_block (line "for i in range(3): pass")) sample_python
                (line "for i in range(3): pass") (new_state "data")
                _ _ _ eq_refl (NoDup_nil _)) as (_ & Hsaved & Hres & _).
  destruct (Hsaved "i" (VInt 2) eq_refl eq_refl) as (H1 & H2 & H3).
  split; [exact H1|]. split; [exact H2|]. split.
  - apply H3; [no_literal_marker|reflexivity].
  - exact (proj1 (Hres "context" eq_refl)).
Defined.

(** ** Externalization *)


(** What a block printed is in the next prompt only when it is the last
    block of its response: here the first block prints the data, the
    second prints nothing, and no prompt holds the data. *)
Example printed_by_earlier_block_is_overwritten :
  let r := run (agent_two (fenced (line "print(context)") ++ fenced (line "x = 5"))
                  (fenced (line "print(context)") ++ fenced (line "x = 5")))
             sample_python 3 "Revenue: $45.2M" "What is revenue?" in
  List.length (passes r) = 3%nat
  /\ Forall (fun p => Text.occurs "Revenue: $45.2M" (prompt p) = false) (passes r)
  /\ Forall (fun p => output_buffer (after p) = "") (passes r).
Proof. vm_compute. repeat split; repeat constructor. Qed.


(** ** Faults *)

(** C2, as worded, fails in its last part: [x = 5] followed by a division
    by zero leaves no [x] in [variables]. *)
Lemma fault_keeps_bindings_counterexample :
  ~ fault_keeps_bindings (agent_block (line "x = 5" ++ line "1/0")) sample_python
      (line "x = 5" ++ line "1/0") (new_state "Revenue: $45.2M").
Proof.
  intros H.
  specialize (H "division by zero" _ _ _ eq_refl "x" (VInt 5) eq_refl eq_refl).
  discriminate H.
Qed.

(** What a block did in place to an object saved before stays when the
    block fails: the list bound to [x] in the first pass holds the
    element appended in the second, whose block then divides by zero. *)
Example in_place_update_stays :
  let r := run (agent_three (fenced (line "x = []"))
                  (fenced (line "x.append(1)" ++ line "1/0"))
                  "FINAL_VAR(x)")
             sample_python 5 "Revenue: $45.2M" "What is revenue?" in
  map (fun p => variables (after p)) (passes r)
  = [[("x", VShared 1 (Ok "[]"))]; [("x", VShared 1 (Ok "[1]"))];
     [("x", VShared 1 (Ok "[1]"))]]
  /\ map (fun p => output_buffer (after p)) (passes r)
     = [""; "Error: division by zero"; "Error: division by zero"]
  /\ answer r = Some "[1]".
Proof. vm_compute. repeat split. Qed.

(** C2, amended.  When a block raises an [Exception],
    [execute_repl_code] returns: its output is what the block had printed
    followed by [Error: ] and the text of the exception, and the output
    buffer is that output.  Nothing is saved: [variables] binds the names
    it bound before the block, in the same order, to the same objects;
    what the block changed in place in these objects stays changed, and
    a value that no code can change in place is as it was.  The blocks
    after it are run, and a pass without answer whose blocks return goes
    on to the next prompt, built from the output of the last block: from
    the error message when the block that raised was the last. *)
Theorem fault_contained (llm : string -> bool -> string) (py : string -> code)
  (src : string) (st : REPLState)
  (msg : string) (g : Dict.t value) (out : string) (st1 : REPLState) :
  sandbox llm py src st = (Raised msg, g, out, st1) ->
  let output := out ++ "Error: " ++ msg in
  let st' := set_output_buffer output st1 in
  execute_repl_code llm py src st = (inl output, st')
  /\ Text.occurs ("Error: " ++ msg) output = true
  /\ output_buffer st' = output
  /\ variables st' = variables st1
  /\ same_bindings (variables st) (variables st')
  /\ (forall k v, Dict.get k (variables st) = Some v -> immutable v ->
        Dict.get k (variables st') = Some v)
  /\ (forall k, Dict.get k (variables st) = None ->
        Dict.get k (variables st') = None)
  /\ later st st'
  /\ (forall rest,
        execute_blocks llm py (src :: rest) st = execute_blocks llm py rest st')
  /\ (forall query p st0 x bs rest,
        let root := set_total_tokens_root
                      (total_tokens_root st0 + (Text.word_count p + 100)) st0 in
        check_final_answer (llm p false) root = Ok x ->
        truthy x = None ->
        extract_code_blocks (llm p false) = (bs ++ src :: rest)%list ->
        execute_blocks llm py bs root = (None, st) ->
        iteration_body llm py query p st0 =
        match execute_blocks llm py rest st' with
        | (None, st2) => Continue (next_prompt (output_buffer st2) query) st2
        | (Some how, st2) => Stop how st2
        end
        /\ (rest = [] ->
            iteration_body llm py query p st0
            = Continue (next_prompt output query) st')).
Proof.
  intros E. cbv zeta.
  pose proof (sandbox_facts _ _ _ _ _ _ _ _ E) as (_ & Hv & _).
  pose proof (execute_later llm py src st) as Hl.
  pose proof (execute_raised _ _ _ _ _ _ _ _ E) as Hx.
  rewrite Hx in Hl. cbn [fst snd] in Hl.
  split; [exact Hx|]. split.
  { replace (out ++ "Error: " ++ msg) with (out ++ ("Error: " ++ msg) ++ "")
      by (now rewrite append_empty_r).
    apply occurs_intro. }
  split; [reflexivity|]. split; [reflexivity|]. split; [exact Hv|].
  split; [|split; [|split; [exact Hl|split]]].
  - intros k v Hk Hi. pose proof (same_bindings_get _ _ k Hv) as Hs.
    rewrite Hk in Hs. cbn [variables set_output_buffer].
    destruct (Dict.get k (variables st1)) as [w|]; [|contradiction].
    f_equal. now apply same_object_immutable.
  - intros k Hk. pose proof (same_bindings_get _ _ k Hv) as Hs.
    rewrite Hk in Hs. cbn [variables set_output_buffer].
    now destruct (Dict.get k (variables st1)).
  - intros rest. cbn [execute_blocks]. now rewrite Hx.
  - intros query p st0 x bs rest Hc Ht Hb Hbs.
    assert (Hgen : iteration_body llm py query p st0 =
                   match execute_blocks llm py rest
                           (set_output_buffer (out ++ "Error: " ++ msg) st1) with
                   | (None, st2) =>
                       Continue (next_prompt (output_buffer st2) query) st2
                   | (Some how, st2) => Stop how st2
                   end).
    { rewrite (iteration_body_blocks llm py query p st0 x Hc Ht), Hb.
      rewrite execute_blocks_app, Hbs. cbn [execute_blocks]. now rewrite Hx. }
    split; [exact Hgen|]. intros ->. exact Hgen.
Qed.

Lemma fault_contained_witness :
  let llm := agent_block (line "x = 5" ++ line "1/0") in
  let src := line "x = 5" ++ line "1/0" in
  let st := new_state "Revenue: $45.2M" in
  fst (execute_repl_code llm sample_python src st) = inl "Error: division by zero"
  /\ variables (snd (execute_repl_code llm sample_python src st)) = [].
Proof.
  cbv zeta.
  pose proof (fault_contained (agent_block (line "x = 5" ++ line "1/0"))
                sample_python (line "x = 5" ++ line "1/0")
                (new_state "Revenue: $45.2M") _ _ _ _ eq_refl)
    as (H1 & _).
  cbv zeta in H1. rewrite H1. split; reflexivity.
Defined.

(** ** The pass without marker and without block *)

(** C3, as worded, fails: after a pass that printed, a pass without
    marker and without block leaves the printed text in the output
    buffer. *)
Lemma idle_pass_counterexample :
  ~ idle_pass_clears_output
      (agent_two (fenced (line "print(context)")) "Let me think.")
      sample_python 2 "Revenue: $45.2M" "What is revenue?".
Proof.
  intros H.
  set (r := run (agent_two (fenced (line "print(context)")) "Let me think.")
              sample_python 2 "Revenue: $45.2M" "What is revenue?") in *.
  assert (exists p, nth_error (passes r) 1 = Some p) as [p Hp]
    by (eexists; reflexivity).
  assert (Hr : response p = "Let me think.")
    by (vm_compute in Hp; injection Hp as <-; reflexivity).
  assert (Hb : output_buffer (after p) = line "Revenue: $45.2M")
    by (vm_compute in Hp; injection Hp as <-; reflexivity).
  destruct (H p) as [_ Hout].
  - eapply nth_error_In, Hp.
  - rewrite Hr. no_literal_marker.
  - rewrite Hr. no_variable_marker.
  - now rewrite Hr.
  - rewrite Hout in Hb. discriminate.
Qed.

(** C3, amended.  A pass whose response holds neither a termination marker
    nor a code block goes on to the next prompt with [variables] and the
    output buffer as they were when it began (so the buffer is empty only
    if it was, as in the first pass of a run); the next prompt is built
    from that unchanged buffer. *)
Theorem idle_pass_keeps_state (llm : string -> bool -> string)
  (py : string -> code) (query p : string) (st : REPLState) :
  ~ has_literal_marker (llm p false) ->
  ~ has_variable_marker (llm p false) ->
  extract_code_blocks (llm p false) = [] ->
  exists st',
    iteration_body llm py query p st
    = Continue (next_prompt (output_buffer st) query) st'
    /\ variables st' = variables st
    /\ output_buffer st' = output_buffer st
    /\ st' = set_total_tokens_root
               (total_tokens_root st + (Text.word_count p + 100)) st.
Proof.
  intros Hl Hv Hb. unfold iteration_body.
  rewrite (check_final_answer_None _ _ Hl Hv), Hb. cbn.
  eexists. repeat split.
Qed.

Lemma idle_pass_keeps_state_witness :
  let llm := agent_two (fenced (line "print(context)")) "Let me think." in
  let st := set_output_buffer (line "Revenue: $45.2M") (new_state "Revenue: $45.2M") in
  exists st',
    iteration_body llm sample_python "What is revenue?" "Previous REPL output:" st
    = Continue (next_prompt (output_buffer st) "What is revenue?") st'
    /\ variables st' = variables st
    /\ output_buffer st' = output_buffer st
    /\ st' = set_total_tokens_root
               (total_tokens_root st + (Text.word_count "Previous REPL output:" + 100)) st.
Proof.
  cbv zeta. apply idle_pass_keeps_state.
  - no_literal_marker.
  - no_variable_marker.
  - reflexivity.
Defined.

(** * Further properties of the code *)

(** ** The code-block extractor *)

Lemma strip_prefix_extend (p a b x : string) :
  Text.strip_prefix p a = Some x -> Text.strip_prefix p (a ++ b) = Some (x ++ b).
Proof.
  intros H. apply strip_prefix_Some in H. subst a.
  rewrite append_assoc. apply strip_prefix_app.
Qed.

(** The lazy group holds no occurrence of what stops it. *)
Lemma lazy_until_shortest (stop s g r : string) :
  stop <> "" ->
  Re.lazy_until stop s = Some (g, r) -> Text.occurs stop g = false.
Proof.
  intros Hstop. revert g; induction s as [|c s IH]; intros g;
    rewrite lazy_until_unfold.
  - destruct (Text.strip_prefix stop "") eqn:E; [|discriminate].
    intros H; injection H as <- <-. destruct stop; [congruence|reflexivity].
  - destruct (Text.strip_prefix stop (String c s)) as [rest|] eqn:E.
    + intros H; injection H as <- <-. destruct stop; [congruence|reflexivity].
    + destruct (Re.lazy_until stop s) as [[g' r']|] eqn:L; [|discriminate].
      intros H; injection H as <- <-.
      rewrite occurs_unfold.
      destruct (Text.strip_prefix stop (String c g')) as [x|] eqn:E'.
      * apply lazy_until_sound in L. subst s.
        apply (strip_prefix_extend _ _ (stop ++ r')) in E'.
        cbn [append] in E'. congruence.
      * now apply IH.
Qed.

Lemma match_repl_sound (s body : string) :
  Re.match_repl s = Some body ->
  exists post,
    s = Re.fence_open ++ body ++ Re.fence_close ++ post
    /\ Text.occurs Re.fence_close body = false.
Proof.
  unfold Re.match_repl.
  destruct (Text.strip_prefix Re.fence_open s) as [rest|] eqn:E; [|discriminate].
  apply strip_prefix_Some in E.
  destruct (Re.lazy_until Re.fence_close rest) as [[g r]|] eqn:L; [|discriminate].
  intros H; injection H as <-. exists r. split.
  - apply lazy_until_sound in L. now subst.
  - eapply lazy_until_shortest; [discriminate|exact L].
Qed.

Lemma findall_unfold (skip : nat) (s : string) :
  Re.findall_repl skip s =
  match skip with
  | S k =>
      match s with
      | EmptyString => []
      | String _ s' => Re.findall_repl k s'
      end
  | O =>
      match Re.match_repl s with
      | Some g =>
          g :: match s with
               | EmptyString => []
               | String _ s' =>
                   Re.findall_repl
                     (String.length Re.fence_open + String.length g
                      + String.length Re.fence_close - 1) s'
               end
      | None =>
          match s with
          | EmptyString => []
          | String _ s' => Re.findall_repl 0 s'
          end
      end
  end.
Proof. destruct s, skip; reflexivity. Qed.

Lemma findall_sound (s : string) :
  forall skip body,
    In body (Re.findall_repl skip s) ->
    exists pre post,
      s = pre ++ Re.fence_open ++ body ++ Re.fence_close ++ post
      /\ Text.occurs Re.fence_close body = false.
Proof.
  assert (Hcons : forall c t body,
            (exists pre post,
               t = pre ++ Re.fence_open ++ body ++ Re.fence_close ++ post
               /\ Text.occurs Re.fence_close body = false) ->
            exists pre post,
              String c t = pre ++ Re.fence_open ++ body ++ Re.fence_close ++ post
              /\ Text.occurs Re.fence_close body = false).
  { intros c t body (pre & post & -> & H). now exists (String c pre), post. }
  induction s as [|c s IH]; intros skip body; rewrite findall_unfold.
  - destruct skip; [|intros []].
    destruct (Re.match_repl "") as [g|] eqn:M; [|intros []].
    intros [<-|[]]. apply match_repl_sound in M as (post & E & H).
    now exists "", post.
  - destruct skip as [|k].
    + destruct (Re.match_repl (String c s)) as [g|] eqn:M.
      * intros [<-|Hin].
        -- apply match_repl_sound in M as (post & E & H). now exists "", post.
        -- apply Hcons. eapply IH, Hin.
      * intros Hin. apply Hcons. eapply IH, Hin.
    + intros Hin. apply Hcons. eapply IH, Hin.
Qed.

Lemma string_length_app (a b : string) :
  String.length (a ++ b) = (String.length a + String.length b)%nat.
Proof. induction a as [|c a IH]; cbn; [reflexivity|now rewrite IH]. Qed.

(** Passing over the characters of a match. *)
Lemma findall_skip (a b : string) (n : nat) :
  Re.findall_repl (String.length a + n) (a ++ b) = Re.findall_repl n b.
Proof.
  induction a as [|c a IH]; [reflexivity|].
  cbn [String.length append Nat.add]. rewrite findall_unfold. exact IH.
Qed.

Lemma strip_prefix_head (a c : ascii) (p s : string) :
  Ascii.eqb c a = false -> Text.strip_prefix (String a p) (String c s) = None.
Proof.
  intros H. cbn [Text.strip_prefix]. rewrite Ascii.eqb_sym in H. now rewrite H.
Qed.

Lemma match_repl_head (c : ascii) (s : string) :
  Ascii.eqb c "`" = false -> Re.match_repl (String c s) = None.
Proof.
  intros H. unfold Re.match_repl, Re.fence_open. cbn [append].
  now rewrite strip_prefix_head.
Qed.

Lemma lazy_until_fence (body post : string) :
  Text.has_char "`" body = false ->
  Re.lazy_until Re.fence_close (body ++ Re.fence_close ++ post) = Some (body, post).
Proof.
  induction body as [|c body IH]; intros H.
  - reflexivity.
  - cbn [Text.has_char] in H. apply orb_false_iff in H as [Hc Hb].
    cbn [append]. rewrite lazy_until_unfold.
    unfold Re.fence_close at 1. rewrite strip_prefix_head by exact Hc.
    now rewrite (IH Hb).
Qed.

Lemma match_repl_fenced (body post : string) :
  Text.has_char "`" body = false ->
  Re.match_repl (Re.fence_open ++ body ++ Re.fence_close ++ post) = Some body.
Proof.
  intros H. unfold Re.match_repl. rewrite strip_prefix_app.
  now rewrite lazy_until_fence.
Qed.

Lemma fence_open_cons (x : string) :
  Re.fence_open ++ x = String "`" ("``repl" ++ String LF x).
Proof. reflexivity. Qed.

Lemma findall_fenced (body post : string) :
  Text.has_char "`" body = false ->
  Re.findall_repl 0 (Re.fence_open ++ body ++ Re.fence_close ++ post)
  = body :: Re.findall_repl 0 post.
Proof.
  intros H. rewrite findall_unfold, match_repl_fenced by exact H. f_equal.
  rewrite fence_open_cons. cbv beta iota.
  set (a := "``repl" ++ String LF (body ++ Re.fence_close)).
  replace ("``repl" ++ String LF (body ++ Re.fence_close ++ post))
    with (a ++ post).
  - replace (String.length Re.fence_open + String.length body
             + String.length Re.fence_close - 1)%nat
      with (String.length a + 0)%nat.
    + apply findall_skip.
    + unfold a. rewrite string_length_app. cbn [String.length].
      rewrite string_length_app.
      cbn. lia.
  - unfold a. rewrite append_assoc. cbn [append]. now rewrite append_assoc.
Qed.

Lemma findall_no_backtick (pre rest : string) :
  Text.has_char "`" pre = false ->
  Re.findall_repl 0 (pre ++ rest) = Re.findall_repl 0 rest.
Proof.
  induction pre as [|c pre IH]; intros H; [reflexivity|].
  cbn [Text.has_char] in H. apply orb_false_iff in H as [Hc Hp].
  cbn [append]. rewrite findall_unfold, match_repl_head by exact Hc.
  now apply IH.
Qed.

(** ** X1-X3: [extract_code_blocks] *)

(** X1. Every block that [extract_code_blocks] returns stands in the
    response between an opening fence and a closing fence, and holds no
    closing fence itself. *)
Theorem extracted_blocks_are_fenced (r body : string) :
  In body (extract_code_blocks r) ->
  exists pre post,
    r = pre ++ Re.fence_open ++ body ++ Re.fence_close ++ post
    /\ Text.occurs Re.fence_close body = false.
Proof. apply findall_sound. Qed.

Lemma extracted_blocks_are_fenced_witness :
  exists pre post,
    "Run this: " ++ fenced (line "x = 5") ++ " then wait"
    = pre ++ Re.fence_open ++ line "x = 5" ++ Re.fence_close ++ post
    /\ Text.occurs Re.fence_close (line "x = 5") = false.
Proof.
  apply extracted_blocks_are_fenced. left. reflexivity.
Defined.

(** X2. A fenced block without backquote that follows a text without
    backquote is the first block extracted, as it is written, and the
    extraction goes on after its closing fence: blocks come out in the
    order they are written. *)
Theorem extract_fenced_block (pre body post : string) :
  Text.has_char "`" pre = false ->
  Text.has_char "`" body = false ->
  extract_code_blocks (pre ++ fenced body ++ post)
  = body :: extract_code_blocks post.
Proof.
  intros Hpre Hbody. unfold extract_code_blocks, fenced.
  rewrite findall_no_backtick by exact Hpre.
  rewrite !append_assoc. now apply findall_fenced.
Qed.

Lemma extract_fenced_block_witness :
  extract_code_blocks
    ("First " ++ fenced (line "x = 5") ++ " then " ++ fenced (line "x = 7") ++ "")
  = [line "x = 5"; line "x = 7"].
Proof.
  rewrite (extract_fenced_block "First " (line "x = 5")) by reflexivity.
  rewrite (extract_fenced_block " then " (line "x = 7") "") by reflexivity.
  reflexivity.
Defined.

(** X3. [extract_code_blocks] returns the empty list exactly for the
    responses that hold no fenced block; an opening fence that is never
    closed gives no block. *)
Theorem extract_nothing_iff (r : string) :
  extract_code_blocks r = [] <-> ~ has_code_block r.
Proof.
  split.
  - intros E (pre & body & post & ->). revert E. unfold extract_code_blocks.
    induction pre as [|c pre IH]; rewrite findall_unfold.
    + cbn [append]. unfold Re.match_repl. rewrite strip_prefix_app.
      pose proof (lazy_until_first Re.fence_close body post) as H.
      destruct (Re.lazy_until Re.fence_close (body ++ Re.fence_close ++ post))
        as [[g x]|]; [discriminate|congruence].
    + cbn [append].
      destruct (Re.match_repl (String c (pre ++ Re.fence_open ++ body
                                         ++ Re.fence_close ++ post)));
        [discriminate|exact IH].
  - intros H. destruct (extract_code_blocks r) as [|body l] eqn:E; [reflexivity|].
    elim H. destruct (findall_sound r 0 body) as (pre & post & -> & _).
    + unfold extract_code_blocks in E. rewrite E. now left.
    + now exists pre, body, post.
Qed.


(** ** X4: [check_final_answer] *)

(** X4. [check_final_answer] returns nothing exactly for the responses
    that hold neither marker, whatever the state is. *)
Theorem check_final_answer_absent_iff (r : string) (st : REPLState) :
  check_final_answer r st = Ok None
  <-> ~ has_literal_marker r /\ ~ has_variable_marker r.
Proof.
  split.
  - unfold check_final_answer. intros H. split.
    + rewrite search_FINAL_iff.
      destruct (Re.search Re.match_FINAL r); [discriminate|tauto].
    + rewrite search_FINAL_VAR_iff.
      destruct (Re.search Re.match_FINAL r); [discriminate|].
      destruct (Re.search Re.match_FINAL_VAR r) as [name|]; [|tauto].
      destruct (py_str _); discriminate.
  - intros [Hl Hv]. now apply check_final_answer_None.
Qed.

(** ** Invariants of the loop *)

Lemma truthy_Some (x : option string) (f : string) :
  truthy x = Some f <-> x = Some f /\ f <> "".
Proof.
  destruct x as [[|c s]|]; cbn.
  - split; [discriminate|]. intros [H1 H2]. congruence.
  - split.
    + intros H; injection H as <-. split; [reflexivity|discriminate].
    + now intros [H _].
  - split; [discriminate|]. now intros [H _].
Qed.

Lemma truthy_None (x : option string) :
  truthy x = None <-> x = None \/ x = Some "".
Proof.
  destruct x as [[|c s]|]; cbn.
  - split; auto.
  - split; [discriminate|]. intros [H|H]; discriminate.
  - split; auto.
Qed.

Lemma prompts_all_any (c : code) : prompts_all (fun _ => True) c.
Proof.
  induction c as [|msg|msg| |k IH|name v k IH|name k IH|id text k IH|text k IH|p k IH];
    cbn [prompts_all]; auto.
Qed.

Section Invariant.
Variable llm : string -> bool -> string.
Variable py : string -> code.
Variable P : REPLState -> Prop.
Variable Q : prompt_arg -> Prop.
Hypothesis P_root : forall n st, P st -> P (set_total_tokens_root n st).
Hypothesis P_query : forall p st, Q p -> P st -> P (snd (llm_query llm p st)).
Hypothesis P_mutate :
  forall id text st, P st -> P (set_variables (retext id text (variables st)) st).
Hypothesis P_save :
  forall g st, P st -> P (set_variables (save_new_variables g (variables st)) st).
Hypothesis P_output : forall out st, P st -> P (set_output_buffer out st).
Hypothesis py_prompts : blocks_prompt Q llm py.

Lemma perform_invariant (c : code) :
  prompts_all Q c ->
  forall g out st o g' out' st',
    perform llm c g out st = (o, g', out', st') -> P st -> P st'.
Proof.
  induction c as [|msg|msg| |k IH|name v k IH|name k IH|id text k IH|text k IH|p k IH];
    cbn [prompts_all]; intros HQ g out st o g' out' st'; cbn [perform];
    intros E Hst;
    try (injection E as <- <- <- <-; exact Hst).
  - eapply IH; [apply HQ|exact E|exact Hst].
  - eapply IH; [exact HQ|exact E|exact Hst].
  - eapply IH; [exact HQ|exact E|exact Hst].
  - eapply IH; [exact HQ|exact E|]. now apply P_mutate.
  - eapply IH; [exact HQ|exact E|exact Hst].
  - destruct HQ as [Hp Hk].
    destruct (llm_query llm p st) as [r st1] eqn:E1.
    eapply IH; [apply Hk|exact E|]. pose proof (P_query p st Hp Hst) as H.
    now rewrite E1 in H.
Qed.

Lemma execute_invariant (src : string) (st : REPLState) :
  prompts_all Q (py src) ->
  P st -> P (snd (execute_repl_code llm py src st)).
Proof.
  intros HQ Hst. unfold execute_repl_code.
  destruct (sandbox llm py src st) as [[[o g] out] st1] eqn:E.
  assert (H1 : P st1).
  { unfold sandbox, exec in E.
    eapply perform_invariant; [exact HQ|exact E|exact Hst]. }
  destruct o; cbn [snd]; auto.
Qed.

Lemma execute_blocks_invariant (blocks : list string) (st : REPLState) :
  Forall (fun src => prompts_all Q (py src)) blocks ->
  P st -> P (snd (execute_blocks llm py blocks st)).
Proof.
  intros HQ. revert st.
  induction HQ as [|src blocks Hsrc _ IH]; intros st Hst; cbn [execute_blocks];
    [exact Hst|].
  pose proof (execute_invariant src st Hsrc Hst) as H.
  destruct (execute_repl_code llm py src st) as [[out|how] st1]; cbn [snd] in *.
  - now apply IH.
  - exact H.
Qed.

Lemma iteration_body_invariant (query p : string) (st : REPLState) :
  P st ->
  match iteration_body llm py query p st with
  | Break _ st' => P st'
  | Continue _ st' => P st'
  | Stop _ st' => P st'
  end.
Proof.
  intros Hst. pose proof (iteration_body_cases llm py query p st) as H.
  cbv zeta in H.
  pose proof (execute_blocks_invariant (extract_code_blocks (llm p false)) _
                (py_prompts p)
                (P_root (total_tokens_root st + (Text.word_count p + 100)) st Hst))
    as Hb.
  destruct (iteration_body llm py query p st) as [f st'|nx st'|how st'].
  - destruct H as (x & _ & _ & ->). now apply P_root.
  - destruct H as (x & _ & _ & E & _). now rewrite E in Hb.
  - destruct H as [(msg & _ & _ & ->)|(x & _ & _ & E)].
    + now apply P_root.
    + now rewrite E in Hb.
Qed.

Lemma loop_invariant (query : string) (remaining : nat) :
  forall it p st n ans st' ps how,
    loop llm py query remaining it p st = (n, ans, st', ps, how) ->
    P st -> Forall P (map after ps) /\ P st'.
Proof.
  induction remaining as [|remaining IH]; intros it p st n ans st' ps how;
    cbn [loop].
  - intros E Hst; injection E as <- <- <- <- <-. split; [constructor|exact Hst].
  - intros E Hst. pose proof (iteration_body_invariant query p st Hst) as Hb.
    destruct (iteration_body llm py query p st) as [f st1|nx st1|h st1].
    + injection E as <- <- <- <- <-. cbn. split; [repeat constructor|]; exact Hb.
    + destruct (loop llm py query remaining (it + 1) nx st1)
        as [[[[n1 ans1] st2] ps1] how1] eqn:L.
      injection E as <- <- <- <- <-.
      destruct (IH _ _ _ _ _ _ _ _ L Hb) as [Hall Hlast].
      split; [|exact Hlast]. cbn. now constructor.
    + injection E as <- <- <- <- <-. cbn. split; [repeat constructor|]; exact Hb.
Qed.

Lemma run_invariant (max_iterations : Z) (ctx query : string) :
  P (new_state ctx) ->
  let r := run llm py max_iterations ctx query in
  Forall P (states_of ctx r) /\ P (final_state r).
Proof.
  intros H0. cbv zeta. unfold run, states_of.
  destruct (loop llm py query (Z.to_nat max_iterations) 0
              (system_prompt (String.length ctx) query) (new_state ctx))
    as [[[[n ans] st] ps] how] eqn:L.
  cbn [passes final_state].
  destruct (loop_invariant _ _ _ _ _ _ _ _ _ _ L H0) as [Hall Hlast].
  split; [now constructor|exact Hlast].
Qed.

End Invariant.

Section LoopFacts.
Variable llm : string -> bool -> string.
Variable py : string -> code.

Lemma perform_root (c : code) :
  forall g out st o g' out' st',
    perform llm c g out st = (o, g', out', st') ->
    total_tokens_root st' = total_tokens_root st.
Proof.
  induction c as [|msg|msg| |k IH|name v k IH|name k IH|id text k IH|text k IH|p k IH];
    intros g out st o g' out' st'; cbn [perform]; intros E;
    try (injection E as <- <- <- <-; reflexivity).
  - exact (IH _ _ _ _ _ _ _ _ E).
  - exact (IH _ _ _ _ _ _ _ E).
  - exact (IH _ _ _ _ _ _ _ E).
  - exact (IH _ _ _ _ _ _ _ E).
  - exact (IH _ _ _ _ _ _ _ E).
  - destruct (llm_query llm p st) as [r st1] eqn:E1.
    rewrite (IH _ _ _ _ _ _ _ _ E).
    pose proof (llm_query_state llm p st) as (_ & _ & H & _).
    now rewrite E1 in H.
Qed.

Lemma execute_root (src : string) (st : REPLState) :
  total_tokens_root (snd (execute_repl_code llm py src st)) = total_tokens_root st.
Proof.
  unfold execute_repl_code.
  destruct (sandbox llm py src st) as [[[o g] out] st1] eqn:E.
  unfold sandbox, exec in E. apply perform_root in E.
  destruct o; cbn; exact E.
Qed.

Lemma execute_blocks_root (blocks : list string) (st : REPLState) :
  total_tokens_root (snd (execute_blocks llm py blocks st)) = total_tokens_root st.
Proof.
  revert st.
  induction blocks as [|src blocks IH]; intros st; cbn [execute_blocks];
    [reflexivity|].
  pose proof (execute_root src st) as H.
  destruct (execute_repl_code llm py src st) as [[out|how] st1]; cbn [snd] in *.
  - now rewrite IH.
  - exact H.
Qed.

Lemma iteration_body_root (query p : string) (st : REPLState) :
  match iteration_body llm py query p st with
  | Break _ st' | Continue _ st' | Stop _ st' =>
      total_tokens_root st'
      = (total_tokens_root st + (Text.word_count p + 100))%Z
  end.
Proof.
  pose proof (iteration_body_cases llm py query p st) as H. cbv zeta in H.
  pose proof (execute_blocks_root (extract_code_blocks (llm p false))
                (set_total_tokens_root
                   (total_tokens_root st + (Text.word_count p + 100)) st)) as Hb.
  destruct (iteration_body llm py query p st) as [f st'|nx st'|how st'].
  - destruct H as (x & _ & _ & ->). reflexivity.
  - destruct H as (x & _ & _ & E & _). now rewrite E in Hb.
  - destruct H as [(msg & _ & _ & ->)|(x & _ & _ & E)]; [reflexivity|].
    now rewrite E in Hb.
Qed.

Lemma root_cost_cons (x : Pass) (ps : list Pass) :
  root_cost (x :: ps) = (Text.word_count (prompt x) + 100 + root_cost ps)%Z.
Proof. reflexivity. Qed.

Lemma loop_root (query : string) (remaining : nat) :
  forall it p st n ans st' ps how,
    loop llm py query remaining it p st = (n, ans, st', ps, how) ->
    total_tokens_root st' = (total_tokens_root st + root_cost ps)%Z.
Proof.
  induction remaining as [|remaining IH]; intros it p st n ans st' ps how;
    cbn [loop].
  - intros E; injection E as <- <- <- <- <-. cbn. lia.
  - pose proof (iteration_body_root query p st) as Hr.
    destruct (iteration_body llm py query p st) as [f st1|nx st1|h st1].
    + intros E; injection E as <- <- <- <- <-.
      rewrite root_cost_cons. cbn [prompt root_cost fold_right]. lia.
    + destruct (loop llm py query remaining (it + 1) nx st1)
        as [[[[n1 ans1] st2] ps1] how1] eqn:L.
      intros E; injection E as <- <- <- <- <-.
      rewrite (IH _ _ _ _ _ _ _ _ L), root_cost_cons. cbn [prompt]. lia.
    + intros E; injection E as <- <- <- <- <-.
      rewrite root_cost_cons. cbn [prompt root_cost fold_right]. lia.
Qed.

(** What the loop knows when it ends.  With an answer, the loop returns,
    the answer is not empty and is what the detector gives for the
    response of the last pass.  Without answer, it has used its budget if
    it returns, and has made a pass if it does not. *)
Lemma loop_answer (query : string) (remaining : nat) :
  forall it p st n ans st' ps how,
    loop llm py query remaining it p st = (n, ans, st', ps, how) ->
    match ans, how with
    | Some f, _ =>
        how = None
        /\ f <> ""
        /\ exists ps' x,
             ps = (ps' ++ [x])%list
             /\ check_final_answer (response x) (after x) = Ok (Some f)
    | None, None => List.length ps = remaining
    | None, Some _ => (1 <= List.length ps)%nat
    end.
Proof.
  induction remaining as [|remaining IH]; intros it p st n ans st' ps how;
    cbn [loop].
  - intros E; injection E as <- <- <- <- <-. reflexivity.
  - pose proof (iteration_body_cases llm py query p st) as Hc. cbv zeta in Hc.
    destruct (iteration_body llm py query p st) as [f st1|nx st1|h st1].
    + destruct Hc as (x & Hc & Ht & ->). intros E; injection E as <- <- <- <- <-.
      apply truthy_Some in Ht as [-> Hne]. split; [reflexivity|].
      split; [exact Hne|].
      eexists [], _. split; [reflexivity|exact Hc].
    + destruct (loop llm py query remaining (it + 1) nx st1)
        as [[[[n1 ans1] st2] ps1] how1] eqn:L.
      intros E; injection E as <- <- <- <- <-.
      specialize (IH _ _ _ _ _ _ _ _ L). destruct ans1 as [f|].
      * destruct IH as (Hh & Hne & ps' & x & -> & Hx). split; [exact Hh|].
        split; [exact Hne|].
        eexists (_ :: ps'), x. split; [reflexivity|exact Hx].
      * destruct how1; cbn [List.length]; [lia|now rewrite IH].
    + intros E; injection E as <- <- <- <- <-. cbn [List.length]. lia.
Qed.

Lemma run_result (max_iterations : Z) (ctx query : string) :
  let r := run llm py max_iterations ctx query in
  sub_calls (result r) = sub_call_count (final_state r)
  /\ root_tokens (result r) = total_tokens_root (final_state r)
  /\ sub_tokens (result r) = total_tokens_sub (final_state r)
  /\ variable_names (result r) = Dict.keys (variables (final_state r)).
Proof.
  cbv zeta. unfold run.
  destruct (loop llm py query (Z.to_nat max_iterations) 0
              (system_prompt (String.length ctx) query) (new_state ctx))
    as [[[[n ans] st] ps] how].
  cbn. repeat split.
Qed.

(** A block sees the state only through its sub-calls and the objects it
    changes: the output buffer it finds plays no part. *)
Lemma perform_output_frame (c : code) :
  forall g out st x,
    perform llm c g out (set_output_buffer x st) =
    let '(o, g', out', st') := perform llm c g out st in
    (o, g', out', set_output_buffer x st').
Proof.
  induction c as [|msg|msg| |k IH|name v k IH|name k IH|id text k IH|text k IH|p k IH];
    intros g out st x; cbn [perform]; try reflexivity; try apply IH.
  - change (set_variables
              (retext id text (variables (set_output_buffer x st)))
              (set_output_buffer x st))
      with (set_output_buffer x
              (set_variables (retext id text (variables st)) st)).
    apply IH.
  - replace (llm_query llm p (set_output_buffer x st))
      with (fst (llm_query llm p st), set_output_buffer x (snd (llm_query llm p st)))
      by (destruct p; reflexivity).
    destruct (llm_query llm p st) as [r st1]. cbn [fst snd]. apply IH.
Qed.

End LoopFacts.

(** ** X5-X8: how [run] ends and what it charges *)

Lemma pass_breaks_helper (llm : string -> bool -> string) (py : string -> code)
  (query p : string) (st : REPLState) (f : string) :
  check_final_answer (llm p false) st = Ok (Some f) -> f <> "" ->
  iteration_body llm py query p st
  = Break f (set_total_tokens_root
               (total_tokens_root st + (Text.word_count p + 100)) st).
Proof.
  intros Hf Hne. unfold iteration_body.
  change (check_final_answer (llm p false)
            (set_total_tokens_root
               (total_tokens_root st + (Text.word_count p + 100)) st))
    with (check_final_answer (llm p false) st).
  rewrite Hf, (proj2 (truthy_Some _ f) (conj eq_refl Hne)). reflexivity.
Qed.



(** X6. When the first response of the agent gives a non-empty answer,
    [run] returns after one pass with that answer: no block of that
    response is run (no variable, no sub-call, empty output buffer) and
    the root tokens are those of the first prompt. *)
Theorem run_stops_at_first_answer (llm : string -> bool -> string)
  (py : string -> code) (max_iterations : Z) (ctx query : string) (f : string) :
  (0 < max_iterations)%Z ->
  check_final_answer (llm (system_prompt (String.length ctx) query) false)
    (new_state ctx) = Ok (Some f) ->
  f <> "" ->
  let r := run llm py max_iterations ctx query in
  answer r = Some f
  /\ result r =
     {| iterations := 1; sub_calls := 0;
        root_tokens :=
          Text.word_count (system_prompt (String.length ctx) query) + 100;
        sub_tokens := 0; variable_names := [] |}
  /\ output_buffer (final_state r) = ""
  /\ List.length (passes r) = 1%nat
  /\ stopped r = None.
Proof.
  intros HN Hf Hne. cbv zeta. unfold run.
  destruct (Z.to_nat max_iterations) as [|n] eqn:EN; [lia|].
  cbn [loop].
  pose proof (pass_breaks_helper llm py query
                (system_prompt (String.length ctx) query) (new_state ctx) f
                Hf Hne) as ->.
  cbn. repeat split.
Qed.

Lemma run_stops_at_first_answer_witness :
  let r := run (agent_two ("FINAL(42)" ++ fenced (line "x = 5")) "later")
             sample_python 3 "Revenue: $45.2M" "What is revenue?" in
  answer r = Some "42"
  /\ result r =
     {| iterations := 1; sub_calls := 0;
        root_tokens :=
          Text.word_count
            (system_prompt (String.length "Revenue: $45.2M") "What is revenue?")
          + 100;
        sub_tokens := 0; variable_names := [] |}
  /\ output_buffer (final_state r) = ""
  /\ List.length (passes r) = 1%nat
  /\ stopped r = None.
Proof.
  apply run_stops_at_first_answer.
  - lia.
  - reflexivity.
  - discriminate.
Defined.

(** X7. [iterations] in the result is the number of passes made, between
    0 and the budget.  A run that returns without an answer has used the
    whole budget; a run that announces an answer returns, has made at
    least one pass, the answer is not empty and it is what
    [check_final_answer] gives for the response of the last pass; a run
    that does not return has made at least one pass. *)
Theorem run_iterations (llm : string -> bool -> string) (py : string -> code)
  (max_iterations : Z) (ctx query : string) :
  let r := run llm py max_iterations ctx query in
  iterations (result r) = Z.of_nat (List.length (passes r))
  /\ (0 <= iterations (result r) <= Z.max 0 max_iterations)%Z
  /\ match answer r, stopped r with
     | None, None => iterations (result r) = Z.max 0 max_iterations
     | Some f, how =>
         how = None
         /\ (1 <= iterations (result r))%Z
         /\ f <> ""
         /\ exists ps x,
              passes r = (ps ++ [x])%list
              /\ check_final_answer (response x) (after x) = Ok (Some f)
     | None, Some _ => (1 <= iterations (result r))%Z
     end.
Proof.
  cbv zeta.
  destruct (run_facts llm py max_iterations ctx query)
    as (_ & _ & Hn & Hlen & _).
  split; [exact Hn|]. split; [lia|].
  rewrite Hn. clear Hn. unfold run in *.
  destruct (loop llm py query (Z.to_nat max_iterations) 0
              (system_prompt (String.length ctx) query) (new_state ctx))
    as [[[[n ans] st] ps] how] eqn:L.
  cbn [answer passes stopped] in *. apply loop_answer in L.
  destruct ans as [f|].
  - destruct L as (Hh & Hne & ps' & x & -> & Hx).
    split; [exact Hh|].
    split; [rewrite List.length_app; cbn; lia|]. split; [exact Hne|].
    now exists ps', x.
  - destruct how; [lia|]. rewrite L. lia.
Qed.

(** X8. The root tokens of the result are the sum, over the passes made,
    of the number of words of the prompt plus 100: each pass costs 100 or
    more, and blocks and sub-calls never charge the root. *)
Theorem root_tokens_are_prompt_costs (llm : string -> bool -> string)
  (py : string -> code) (max_iterations : Z) (ctx query : string) :
  let r := run llm py max_iterations ctx query in
  root_tokens (result r) = root_cost (passes r)
  /\ (100 * iterations (result r) <= root_tokens (result r))%Z
  /\ (forall src st,
        total_tokens_root (snd (execute_repl_code llm py src st))
        = total_tokens_root st).
Proof.
  cbv zeta.
  assert (Hcost : forall ps, (100 * Z.of_nat (List.length ps) <= root_cost ps)%Z).
  { induction ps as [|x ps IH]; [cbn; lia|].
    rewrite root_cost_cons. pose proof (word_count_nonneg (prompt x)).
    cbn [List.length]. lia. }
  split; [|split; [|apply execute_root]].
  - unfold run.
    destruct (loop llm py query (Z.to_nat max_iterations) 0
                (system_prompt (String.length ctx) query) (new_state ctx))
      as [[[[n ans] st] ps] how] eqn:L.
    cbn [result root_tokens passes]. apply loop_root in L. rewrite L. cbn. lia.
  - destruct (run_facts llm py max_iterations ctx query)
      as (_ & _ & Hn & _).
    rewrite Hn. unfold run.
    destruct (loop llm py query (Z.to_nat max_iterations) 0
                (system_prompt (String.length ctx) query) (new_state ctx))
      as [[[[n ans] st] ps] how] eqn:L.
    cbn [result root_tokens passes]. apply loop_root in L. rewrite L.
    cbn [total_tokens_root new_state]. specialize (Hcost ps). lia.
Qed.

(** ** X9-X12: the sandbox within a run *)


Lemma sub_call_agent_prompts :
  blocks_prompt has_split
    (agent_block (line "answer = llm_query(str(context))")) sample_python.
Proof.
  intros p. unfold agent_block.
  replace (extract_code_blocks (fenced (line "answer = llm_query(str(context))")))
    with [line "answer = llm_query(str(context))"] by (vm_compute; reflexivity).
  constructor; [|constructor]. cbn. intros g.
  destruct (Dict.get "context" g) as [v|]; [|exact I].
  destruct (py_str v); [|exact I]. split; [exact I|].
  intros [t|msg]; exact I.
Qed.


(** Without that condition the charge can be missing: the sub-call of
    [llm_query(5)] is counted and raises before it is charged. *)
Example sub_call_not_charged :
  let r := run (agent_block (line "llm_query(5)")) sample_python 2
             "Revenue: $45.2M" "What is revenue?" in
  sub_calls (result r) = 2%Z /\ sub_tokens (result r) = 0%Z
  /\ stopped r = None.
Proof. vm_compute. repeat split. Qed.

Lemma injected_reserved (ctx k : string) (v : value) :
  Dict.get k (injected ctx) = Some v -> is_reserved k = true.
Proof.
  unfold injected. cbn [Dict.get].
  repeat match goal with
  | |- context [String.eqb ?a k] =>
      destruct (String.eqb_spec a k) as [<-|?]; [reflexivity|]
  end.
  discriminate.
Qed.

(** X10. No reserved name ever becomes a variable: in every state of a
    run [variables] holds none of the six names and its keys are
    distinct, so every block starts from globals in which [context] is
    the data and [llm_query], [print], [re], [json] are the objects the
    sandbox puts there, whatever earlier blocks bound these names to.
    The names listed in the result are distinct and not reserved. *)
Theorem reserved_names_never_saved (llm : string -> bool -> string)
  (py : string -> code) (max_iterations : Z) (ctx query : string) :
  let r := run llm py max_iterations ctx query in
  Forall (fun s =>
            no_reserved_key s
            /\ NoDup (Dict.keys (variables s))
            /\ forall k v, Dict.get k (injected ctx) = Some v ->
                           Dict.get k (exec_globals_of s) = Some v)
         (states_of ctx r)
  /\ NoDup (variable_names (result r))
  /\ forall k, In k (variable_names (result r)) -> is_reserved k = false.
Proof.
  cbv zeta.
  set (P := fun s => no_reserved_key s
                     /\ NoDup (Dict.keys (variables s))
                     /\ context s = ctx).
  destruct (run_invariant llm py P (fun _ => True)) with
    (max_iterations := max_iterations) (ctx := ctx) (query := query)
    as [Hall Hlast].
  - intros n st H. exact H.
  - intros p st _ H. destruct p; exact H.
  - intros id text st (H1 & H2 & H3). split; [|split; [|exact H3]].
    + intros k Hk. cbn [variables set_variables].
      rewrite retext_get, (H1 k Hk). reflexivity.
    + cbn [variables set_variables]. now rewrite retext_keys.
  - intros g st (H1 & H2 & H3). split; [|split; [|exact H3]].
    + intros k Hk. cbn. rewrite save_get_reserved by exact Hk. now apply H1.
    + cbn. now apply merge_NoDup.
  - intros out st H. exact H.
  - intros p. apply Forall_forall. intros src _. apply prompts_all_any.
  - split; [|split; [constructor|reflexivity]]. intros k _. reflexivity.
  - split; [|split].
    + eapply Forall_impl; [|exact Hall]. intros s (H1 & H2 & H3).
      split; [exact H1|]. split; [exact H2|]. intros k v Hk.
      unfold exec_globals_of. rewrite H3.
      rewrite update_get_absent; [exact Hk|].
      apply H1. eapply injected_reserved, Hk.
    + destruct (run_result llm py max_iterations ctx query) as (_ & _ & _ & ->).
      apply Hlast.
    + destruct (run_result llm py max_iterations ctx query) as (_ & _ & _ & ->).
      intros k Hin. destruct Hlast as (H1 & _).
      destruct (is_reserved k) eqn:R; [|reflexivity].
      apply get_None_keys in Hin; [contradiction|]. now apply H1.
Qed.

(** X11. When a response holds several blocks, they run in order on the
    same growing state, up to one that does not return, and the next
    prompt carries the captured output of the last block only: what the
    earlier blocks printed is dropped. *)
Theorem next_prompt_has_last_output (llm : string -> bool -> string)
  (py : string -> code) (query p : string) (st : REPLState)
  (x : option string) (blocks : list string) (src : string) :
  check_final_answer (llm p false) st = Ok x ->
  truthy x = None ->
  extract_code_blocks (llm p false) = (blocks ++ [src])%list ->
  let st1 := set_total_tokens_root
               (total_tokens_root st + (Text.word_count p + 100)) st in
  iteration_body llm py query p st =
  match execute_blocks llm py blocks st1 with
  | (Some how, st2) => Stop how st2
  | (None, st2) =>
      match execute_repl_code llm py src st2 with
      | (inl out, st3) => Continue (next_prompt out query) st3
      | (inr how, st3) => Stop how st3
      end
  end.
Proof.
  intros Hc Ht Hb. cbv zeta.
  rewrite (iteration_body_blocks llm py query p st x Hc Ht), Hb.
  rewrite execute_blocks_app.
  destruct (execute_blocks llm py blocks _) as [[how|] st2]; [reflexivity|].
  cbn [execute_blocks].
  pose proof (execute_output llm py src st2) as Ho.
  destruct (execute_repl_code llm py src st2) as [[out|how] st3];
    cbn [fst snd] in Ho; [|reflexivity].
  now rewrite Ho.
Qed.

Lemma next_prompt_has_last_output_witness :
  iteration_body
    (fun _ _ => fenced (line "print(context)") ++ fenced (line "x = 5"))
    sample_python "What is revenue?" "go" (new_state "Revenue: $45.2M")
  = Continue (next_prompt "" "What is revenue?")
      (set_total_tokens_root 101
         (set_variables [("x", VInt 5)] (new_state "Revenue: $45.2M"))).
Proof.
  rewrite (next_prompt_has_last_output _ _ _ _ _ None
             [line "print(context)"] (line "x = 5"));
    reflexivity.
Defined.

(** X12. [execute_repl_code] overwrites the output buffer: the output it
    returns and the state it leaves are the same whatever the buffer
    held before, so captured output never piles up from call to call.
    When it does not return, the buffer stays as it was. *)
Theorem execute_overwrites_output (llm : string -> bool -> string)
  (py : string -> code) (src : string) (st : REPLState) (old : string) :
  execute_repl_code llm py src (set_output_buffer old st) =
  match execute_repl_code llm py src st with
  | (inl out, st') => (inl out, st')
  | (inr how, st') => (inr how, set_output_buffer old st')
  end.
Proof.
  unfold execute_repl_code, sandbox, exec.
  change (exec_globals_of (set_output_buffer old st)) with (exec_globals_of st).
  rewrite perform_output_frame.
  destruct (perform llm (py src) _ "" st) as [[[[|msg|msg|] g] out] st1];
    reflexivity.
Qed.

(** ** X13-X15: the agent of the demonstration *)

Lemma lower_app (a b : string) : lower (a ++ b) = lower a ++ lower b.
Proof. induction a as [|c a IH]; cbn [append lower]; [|rewrite IH]; reflexivity. Qed.

Lemma length_take (n : nat) (s : string) : (String.length (take n s) <= n)%nat.
Proof.
  revert s; induction n as [|n IH]; intros [|c s]; cbn; try lia.
  specialize (IH s). lia.
Qed.

Lemma root_response_cases (p : string) :
  In (simulated_llm p false)
     [response_summary; response_documents; response_acquisition; response_explore].
Proof.
  unfold simulated_llm. cbv zeta.
  repeat match goal with
  | |- context [if ?b then _ else _] => destruct b
  end; cbn [In]; auto.
Qed.

Lemma root_response_plain (p : string) :
  ~ has_literal_marker (simulated_llm p false)
  /\ ~ has_variable_marker (simulated_llm p false)
  /\ List.length (extract_code_blocks (simulated_llm p false)) = 1%nat.
Proof.
  rewrite search_FINAL_iff, search_FINAL_VAR_iff.
  destruct (root_response_cases p) as [<-|[<-|[<-|[<-|[]]]]];
    (split; [|split]); try (intros H; now apply H); reflexivity.
Qed.

(** X13. The agent of the demonstration never announces an answer on the
    root path and always answers with exactly one code block: whatever
    the data and the query, a run with it announces no answer, and when
    its blocks settle it returns after as many passes as its budget
    allows, each of which ran one block. *)
Theorem demonstration_uses_its_budget (py : string -> code)
  (max_iterations : Z) (ctx query : string) :
  (0 <= max_iterations)%Z ->
  blocks_settle simulated_llm py ->
  let r := run simulated_llm py max_iterations ctx query in
  stopped r = None
  /\ iterations (result r) = max_iterations
  /\ answer r = None
  /\ Forall (fun x =>
               check_final_answer (response x) (after x) = Ok None
               /\ List.length (extract_code_blocks (response x)) = 1%nat)
            (passes r).
Proof.
  intros HN Hset. cbv zeta.
  destruct (run_facts simulated_llm py max_iterations ctx query)
    as (_ & _ & _ & _ & Hall & _).
  assert (Hno : forall p, ~ has_literal_marker (simulated_llm p false)
                          /\ ~ has_variable_marker (simulated_llm p false)).
  { intros p. destruct (root_response_plain p) as (H1 & H2 & _). now split. }
  split; [|split; [|split]].
  - unfold run.
    destruct (loop simulated_llm py query (Z.to_nat max_iterations) 0
                (system_prompt (String.length ctx) query) (new_state ctx))
      as [[[[n ans] st] ps] how] eqn:L.
    now apply (loop_without_marker simulated_llm py query _ Hno Hset) in L.
  - unfold run.
    destruct (loop simulated_llm py query (Z.to_nat max_iterations) 0
                (system_prompt (String.length ctx) query) (new_state ctx))
      as [[[[n ans] st] ps] how] eqn:L.
    apply (loop_without_marker simulated_llm py query _ Hno Hset) in L
      as (-> & _ & _).
    cbn. lia.
  - unfold run.
    destruct (loop simulated_llm py query (Z.to_nat max_iterations) 0
                (system_prompt (String.length ctx) query) (new_state ctx))
      as [[[[n ans] st] ps] how] eqn:L.
    now apply (loop_without_marker simulated_llm py query _ Hno Hset) in L
      as (_ & -> & _).
  - eapply Forall_impl; [|exact Hall]. intros x [Hr _]. rewrite Hr.
    destruct (root_response_plain (prompt x)) as (H1 & H2 & H3).
    split; [now apply check_final_answer_None|exact H3].
Qed.

(** The sample of Python has none of the blocks of the demonstration: it
    takes each for a block that Python rejects, which settles. *)
Lemma demonstration_settles_in_sample : blocks_settle simulated_llm sample_python.
Proof.
  intros p.
  destruct (root_response_cases p) as [<-|[<-|[<-|[<-|[]]]]].
  - destruct (extract_code_blocks response_summary) as [|b [|]] eqn:E;
      vm_compute in E; try discriminate E.
    injection E as <-. constructor; [vm_compute; exact I|constructor].
  - destruct (extract_code_blocks response_documents) as [|b [|]] eqn:E;
      vm_compute in E; try discriminate E.
    injection E as <-. constructor; [vm_compute; exact I|constructor].
  - destruct (extract_code_blocks response_acquisition) as [|b [|]] eqn:E;
      vm_compute in E; try discriminate E.
    injection E as <-. constructor; [vm_compute; exact I|constructor].
  - destruct (extract_code_blocks response_explore) as [|b [|]] eqn:E;
      vm_compute in E; try discriminate E.
    injection E as <-. constructor; [vm_compute; exact I|constructor].
Qed.

Lemma demonstration_uses_its_budget_witness :
  let r := run simulated_llm sample_python 3 "Revenue: $45.2M"
             "What is the company's revenue and who is the CEO?" in
  stopped r = None
  /\ iterations (result r) = 3%Z
  /\ answer r = None
  /\ Forall (fun x =>
               check_final_answer (response x) (after x) = Ok None
               /\ List.length (extract_code_blocks (response x)) = 1%nat)
            (passes r).
Proof.
  apply demonstration_uses_its_budget.
  - discriminate.
  - exact demonstration_settles_in_sample.
Defined.

(** X14. The first prompt of a run names "documents", so the agent of the
    demonstration answers it with its summary block or with its document
    block, for every data and every query: its acquisition block and its
    default block are never the first response. *)
Theorem demonstration_first_response (context_len : nat) (query : string) :
  simulated_llm (system_prompt context_len query) false = response_summary
  \/ simulated_llm (system_prompt context_len query) false = response_documents.
Proof.
  unfold simulated_llm. cbv zeta.
  destruct (Text.occurs "what is the company" _ || Text.occurs "summary" _);
    [now left|right].
  assert (H : Text.occurs "document" (lower (system_prompt context_len query))
              = true).
  { unfold system_prompt. rewrite !lower_app.
    apply occurs_app_r, occurs_app_r, occurs_app_l. reflexivity. }
  rewrite H, orb_true_r. reflexivity.
Qed.

(** X15. A sub-call to the agent of the demonstration returns a short
    text whatever the prompt: 96 characters at most, since the default
    answer repeats no more than the first 50 characters of the prompt. *)
Theorem demonstration_sub_response_is_short (p : string) :
  (String.length (simulated_llm p true) <= 96)%nat.
Proof.
  unfold simulated_llm. cbv zeta.
  repeat match goal with
  | |- context [if ?b then _ else _] => destruct b
  end; try (cbn; lia).
  rewrite !string_length_app. pose proof (length_take 50 p) as H.
  set (t := take 50 p) in *. cbn [String.length]. lia.
Qed.

(** ** X16: a variable saved by one pass answers the next *)

(** X16. The passes compose: when the first response holds one block and
    no marker, the block runs to its end with a name bound to a value
    whose text is not empty, and the response to the next prompt refers
    to that name with [FINAL_VAR] (and holds no literal marker), a run
    with a budget of two or more returns at its second pass with the text
    of the value as its answer, and the name is among the variables of
    the result. *)
Theorem answer_from_saved_variable (llm : string -> bool -> string)
  (py : string -> code) (max_iterations : Z) (ctx query src k : string)
  (v : value) (text : string) (g : Dict.t value) (out : string)
  (st2 : REPLState) :
  let p1 := system_prompt (String.length ctx) query in
  let st1 := set_total_tokens_root (Text.word_count p1 + 100) (new_state ctx) in
  (2 <= max_iterations)%Z ->
  ~ has_literal_marker (llm p1 false) ->
  ~ has_variable_marker (llm p1 false) ->
  extract_code_blocks (llm p1 false) = [src] ->
  sandbox llm py src st1 = (Finished, g, out, st2) ->
  is_reserved k = false ->
  Dict.get k g = Some v ->
  py_str v = Ok text ->
  text <> "" ->
  ~ has_literal_marker (llm (next_prompt out query) false) ->
  Re.search Re.match_FINAL_VAR (llm (next_prompt out query) false) = Some k ->
  let r := run llm py max_iterations ctx query in
  iterations (result r) = 2%Z
  /\ answer r = Some text
  /\ In k (variable_names (result r))
  /\ stopped r = None.
Proof.
  cbv zeta. intros HN Hl1 Hv1 Hb E Hk Hg Hs Hne Hl2 Hv2.
  pose proof (sandbox_facts _ _ _ _ _ _ _ _ E) as (Hnd & _).
  set (p1 := system_prompt (String.length ctx) query) in *.
  set (st1 := set_total_tokens_root (Text.word_count p1 + 100) (new_state ctx)) in *.
  set (st3 := set_output_buffer out
                (set_variables (save_new_variables g (variables st2)) st2)).
  assert (B1 : iteration_body llm py query p1 (new_state ctx)
               = Continue (next_prompt out query) st3).
  { rewrite (iteration_body_blocks llm py query p1 (new_state ctx) None)
      by (try reflexivity; now apply check_final_answer_None).
    rewrite Hb. cbn [execute_blocks].
    change (set_total_tokens_root
              (total_tokens_root (new_state ctx) + (Text.word_count p1 + 100))
              (new_state ctx))
      with st1.
    rewrite (execute_finished _ _ _ _ _ _ _ E). reflexivity. }
  assert (Hget : Dict.get k (variables st3) = Some v).
  { unfold st3. cbn [variables set_output_buffer set_variables].
    rewrite save_get by assumption. now rewrite Hg. }
  assert (B2 : iteration_body llm py query (next_prompt out query) st3
               = Break text
                   (set_total_tokens_root
                      (total_tokens_root st3
                       + (Text.word_count (next_prompt out query) + 100)) st3)).
  { apply pass_breaks_helper; [|exact Hne].
    rewrite (check_final_answer_variable _ _ k Hl2 Hv2). now rewrite Hget, Hs. }
  unfold run.
  destruct (Z.to_nat max_iterations) as [|[|n]] eqn:EN; try lia.
  cbn [loop]. fold p1. rewrite B1. cbn [loop]. rewrite B2.
  cbn [result iterations answer variable_names variables set_total_tokens_root
       stopped].
  split; [reflexivity|]. split; [reflexivity|]. split; [|reflexivity].
  eapply get_Some_keys, Hget.
Qed.

Lemma answer_from_saved_variable_witness :
  let r := run (agent_two
                  (fenced (line ("answer = " ++ quoted "Revenue is $45.2M")))
                  "FINAL_VAR(answer)")
             sample_python 10 "Revenue: $45.2M" "What is revenue?" in
  iterations (result r) = 2%Z
  /\ answer r = Some "Revenue is $45.2M"
  /\ In "answer" (variable_names (result r))
  /\ stopped r = None.
Proof.
  eapply (answer_from_saved_variable _ _ 10 "Revenue: $45.2M" "What is revenue?"
            (line ("answer = " ++ quoted "Revenue is $45.2M")) "answer"
            (VStr "Revenue is $45.2M") "Revenue is $45.2M").
  - lia.
  - no_literal_marker.
  - no_variable_marker.
  - reflexivity.
  - reflexivity.
  - reflexivity.
  - reflexivity.
  - reflexivity.
  - discriminate.
  - no_literal_marker.
  - reflexivity.
Defined.

(** ** X17: a reference to a missing variable *)

(** X17. A response that refers with [FINAL_VAR] to a name that is not
    among the variables (and holds no literal marker) ends the loop all
    the same: the pass breaks with the placeholder that names the
    variable as its answer, and the blocks of the response are not run. *)
Theorem missing_variable_ends_the_loop (llm : string -> bool -> string)
  (py : string -> code) (query p : string) (st : REPLState) (name : string) :
  ~ has_literal_marker (llm p false) ->
  Re.search Re.match_FINAL_VAR (llm p false) = Some name ->
  Dict.get name (variables st) = None ->
  iteration_body llm py query p st
  = Break ("[Variable " ++ name ++ " not found]")
      (set_total_tokens_root
         (total_tokens_root st + (Text.word_count p + 100)) st).
Proof.
  intros Hl Hv Hget. apply pass_breaks_helper; [|discriminate].
  rewrite (check_final_answer_variable _ _ name Hl Hv). now rewrite Hget.
Qed.

Lemma missing_variable_ends_the_loop_witness :
  iteration_body (fun _ _ => fenced (line "x = 5") ++ "FINAL_VAR(total)")
    sample_python "What is revenue?" "go" (new_state "Revenue: $45.2M")
  = Break "[Variable total not found]"
      (set_total_tokens_root 101 (new_state "Revenue: $45.2M")).
Proof.
  apply (missing_variable_ends_the_loop
           (fun _ _ => fenced (line "x = 5") ++ "FINAL_VAR(total)")
           sample_python "What is revenue?" "go" (new_state "Revenue: $45.2M")
           "total");
    [no_literal_marker|reflexivity|reflexivity].
Defined.
